(** * basil.js — the 2D affine transformation subsystem

    A shallow embedding of [src/includes/transformation.js]: the [Matrix2D]
    prototype, the matrix stack of the public API ([pushMatrix], [popMatrix],
    [applyMatrix], [rotate], [scale], [translate]) and the [transform()]
    facade, followed by the properties the design document states about them.

    Layout of the development:
    - [Number]: the arithmetic the script engine offers on JS Numbers, as an
      interface with two instances: IEEE-754 binary64 (what the engine runs)
      and the real numbers (the exact reading the algebraic laws are about);
    - [Matrix2D]: the methods of the prototype as functions on the contents
      of the [elements] array;
    - [Heap]: JS arrays and [Matrix2D] objects as references into a store,
      so that copying ([slice]) and in-place assignment can be told apart;
    - [pub]: the public matrix-stack functions over that store;
    - [Facade]: [pub.transform] over an abstract host (InDesign) interface;
    - [Canvas]: the canvas modes of core.js, which call [resetMatrix] and
      [translate].

    The algebraic laws are stated over the reals and say so; where a law
    fails on binary64 a run on binary64 shows it. The statements on
    binary64 (the rotation matrix, missing arguments, short arrays) hold
    for every input they name. *)

From Stdlib Require Import Reals Lra PrimFloat Uint63.
From Stdlib Require Import SpecFloat FloatOps FloatAxioms.
From stdpp Require Import gmap list strings.

(** ** Numbers *)

(** The operations the source applies to JS Numbers. [lit] is an integer
    literal, [truthy] is ToBoolean on a Number (false for [0], [-0], [NaN]),
    [undef] is ToNumber(undefined), the operand an arithmetic expression gets
    when it reads past the end of an array or uses an omitted argument. *)
Class Number (T : Type) : Type := {
  lit : Z -> T;
  add : T -> T -> T;
  sub : T -> T -> T;
  mul : T -> T -> T;
  div : T -> T -> T;
  neg : T -> T;
  abs : T -> T;
  gtb : T -> T -> bool;
  truthy : T -> bool;
  undef : T
}.

(** [Math.cos] and [Math.sin]. *)
Class Trig (T : Type) : Type := {
  cos : T -> T;
  sin : T -> T
}.

Global Hint Mode Number ! : typeclass_instances.
Global Hint Mode Trig ! : typeclass_instances.

Declare Scope num_scope.
Delimit Scope num_scope with num.
Notation "0" := (lit 0) : num_scope.
Notation "1" := (lit 1) : num_scope.
Notation "100" := (lit 100) : num_scope.
Notation "x + y" := (add x y) : num_scope.
Notation "x - y" := (sub x y) : num_scope.
Notation "x * y" := (mul x y) : num_scope.
Notation "x / y" := (div x y) : num_scope.
Notation "- x" := (neg x) : num_scope.
Notation "x >? y" := (gtb x y) : num_scope.

(** IEEE-754 binary64, the Number type of the engine. *)
Definition float_lit (z : Z) : float :=
  match z with
  | Z0 => PrimFloat.zero
  | Zpos _ => PrimFloat.of_uint63 (Uint63.of_Z z)
  | Zneg p => PrimFloat.opp (PrimFloat.of_uint63 (Uint63.of_Z (Zpos p)))
  end.

#[export] Instance Number_float : Number float := {|
  lit := float_lit;
  add := PrimFloat.add;
  sub := PrimFloat.sub;
  mul := PrimFloat.mul;
  div := PrimFloat.div;
  neg := PrimFloat.opp;
  abs := PrimFloat.abs;
  gtb := fun x y => PrimFloat.ltb y x;
  truthy := fun x => negb (PrimFloat.eqb x PrimFloat.zero) && negb (PrimFloat.is_nan x);
  undef := PrimFloat.nan
|}.

(** The real numbers: exact arithmetic. There is no NaN among the reals;
    [undef] is 0 here, and the statements over the reals are about
    six-element matrices and two-element points, which never read it. *)
#[export] Instance Number_R : Number R := {|
  lit := IZR;
  add := Rplus;
  sub := Rminus;
  mul := Rmult;
  div := Rdiv;
  neg := Ropp;
  abs := Rabs;
  gtb := fun x y => if Rgt_dec x y then true else false;
  truthy := fun x => if Req_dec_T x 0%R then false else true;
  undef := 0%R
|}.

#[export] Instance Trig_R : Trig R := {|
  cos := Rtrigo_def.cos;
  sin := Rtrigo_def.sin
|}.

(** [Math.PI]. *)
Class Pi (T : Type) : Type := { Math_PI : T }.
Global Hint Mode Pi ! : typeclass_instances.

#[export] Instance Pi_R : Pi R := {| Math_PI := Rtrigo1.PI |}.

(** ** Comparing and approximating on binary64 *)

(** Two Numbers that are the same value, the two zeros taken as one (as
    [===] takes them) and NaN as the same as NaN. *)
Definition same (x y : float) : bool :=
  PrimFloat.eqb x y || (PrimFloat.is_nan x && PrimFloat.is_nan y).

(** [Math.cos] and [Math.sin] are implementation-approximated in the
    language. This is one implementation, for the runs on binary64: the
    argument is reduced by whole turns and the Taylor polynomial is summed,
    all in binary64. At 1 it returns 0.5403023058681398 and
    0.8414709848078965; for very large arguments its reduction loses
    digits. What is stated with it does not hang on its digits, and what
    is proved of [rotate] on binary64 is proved for every [Trig float]. *)
Module Math.
Local Open Scope float_scope.

Definition two_pi : float := 0x1.921fb54442d18p+2.

(** The whole number nearest to [x / two_pi], for quotients below 2^51. *)
Definition turns (x : float) : float := (x / two_pi + 0x1.8p52) - 0x1.8p52.

Definition reduce (x : float) : float := x - turns x * two_pi.

(** [term - term r2 / ((i+1)(i+2)) + ...], [n] terms after the first. *)
Fixpoint taylor (n : nat) (i term r2 : float) : float :=
  match n with
  | O => term
  | S n => term + taylor n (i + 2) (- term * r2 / ((i + 1) * (i + 2))) r2
  end.

Definition cos (x : float) : float :=
  let r := reduce x in taylor 16 0 1 (r * r).

Definition sin (x : float) : float :=
  let r := reduce x in taylor 16 1 r (r * r).
End Math.

#[export] Instance Trig_float : Trig float := {|
  cos := Math.cos;
  sin := Math.sin
|}.

(** ** JS arrays of Numbers *)

Section Arrays.
Context {T : Type} `{Number T}.

(** [l[i]] in an arithmetic context. *)
Definition idx (l : list T) (i : nat) : T := nth i l undef.

(** [l[i] = v]: an assignment past the end extends the array. *)
Definition store (l : list T) (i : nat) (v : T) : list T :=
  if decide (i < length l)%nat then <[i := v]> l
  else l ++ replicate (i - length l) undef ++ [v].

(** An argument that may have been omitted: [None] is [undefined]. *)
Definition to_number (v : option T) : T :=
  match v with Some x => x | None => undef end.
Definition to_boolean (v : option T) : bool :=
  match v with Some x => truthy x | None => false end.
End Arrays.

Notation "l .[ i ]" := (idx l i%nat) (at level 1, left associativity, format "l .[ i ]").

(** ** Matrix2D: the prototype's methods on the contents of [this.elements]

    Each function takes the contents of [this.elements] before the call and
    returns their contents after it (and the method's return value, when
    there is one). Whether the method assigns into the existing array or
    replaces it by a new one is recorded in the [Heap] layer below. *)

(** A point as [mult] accepts it: a [Vector] or a two-element array. *)
Inductive Point (T : Type) : Type :=
  | PVector (x y z : T)
  | PArray (l : list T).
Arguments PVector {T} x y z.
Arguments PArray {T} l.

Module Matrix2D.
Section Methods.
Context {T : Type} `{Number T}.
Local Open Scope num_scope.

(** [reset]: [this.set([1, 0, 0, 0, 1, 0])]. *)
Definition reset : list T := [1; 0; 0; 0; 1; 0].

Definition translate (tx ty : T) (this : list T) : list T :=
  let this := store this 2 (tx * this.[0] + ty * this.[1] + this.[2]) in
  let this := store this 5 (tx * this.[3] + ty * this.[4] + this.[5]) in
  this.

Definition invTranslate (tx ty : T) (this : list T) : list T :=
  translate (- tx) (- ty) this.

(** [mult(source, target)]; the result is the (possibly fresh) target. *)
Definition mult (this : list T) (source : Point T) (target : option (Point T)) : Point T :=
  let '(x, y, target) :=
    match source with
    | PVector x y _ => (x, y, default (PVector undef undef undef) target)
    | PArray l => (l.[0], l.[1], default (PArray []) target)
    end in
  match target with
  | PArray t =>
      let t := store t 0 (this.[0] * x + this.[1] * y + this.[2]) in
      let t := store t 1 (this.[3] * x + this.[4] * y + this.[5]) in
      PArray t
  | PVector _ _ _ =>
      PVector (this.[0] * x + this.[1] * y + this.[2])
              (this.[3] * x + this.[4] * y + this.[5])
              0
  end.

Definition multX (this : list T) (x y : T) : T :=
  x * this.[0] + y * this.[1] + this.[2].

Definition multY (this : list T) (x y : T) : T :=
  x * this.[3] + y * this.[4] + this.[5].

Definition determinant (this : list T) : T :=
  this.[0] * this.[4] - this.[1] * this.[3].

(** [invert]: the return value and the contents afterwards. *)
Definition invert (this : list T) : bool * list T :=
  let d := determinant this in
  if abs d >? - lit 2147483648 then
    let old00 := this.[0] in
    let old01 := this.[1] in
    let old02 := this.[2] in
    let old10 := this.[3] in
    let old11 := this.[4] in
    let old12 := this.[5] in
    let this := store this 0 (old11 / d) in
    let this := store this 3 (- old10 / d) in
    let this := store this 1 (- old01 / d) in
    let this := store this 4 (old00 / d) in
    let this := store this 2 ((old01 * old12 - old11 * old02) / d) in
    let this := store this 5 ((old10 * old02 - old00 * old12) / d) in
    (true, this)
  else (false, this).

Definition scale (sx sy : option T) (this : list T) : list T :=
  let sy := if to_boolean sx && negb (to_boolean sy) then sx else sy in
  if to_boolean sx && to_boolean sy then
    let this := store this 0 (this.[0] * to_number sx) in
    let this := store this 1 (this.[1] * to_number sy) in
    let this := store this 3 (this.[3] * to_number sx) in
    let this := store this 4 (this.[4] * to_number sy) in
    this
  else this.

(** [apply]: [source] is the array the argument forms all reduce to. *)
Definition apply (this source : list T) : list T :=
  let result := [0; 0; this.[2]; 0; 0; this.[5]] in
  let '(result, _) :=
    foldl (fun '(result, e) row =>
      foldl (fun '(result, e) col =>
        (store result e
           (result.[e] + (this.[row * 3 + 0] * source.[col + 0]
                          + this.[row * 3 + 1] * source.[col + 3])),
         S e))
        (result, e) (seq 0 3))
      (result, 0%nat) (seq 0 2) in
  result.

Definition preApply (this source : list T) : list T :=
  let result := [0; 0; source.[2]; 0; 0; source.[5]] in
  let result := store result 2 (source.[2] + this.[2] * source.[0] + this.[5] * source.[1]) in
  let result := store result 5 (source.[5] + this.[2] * source.[3] + this.[5] * source.[4]) in
  let result := store result 0 (this.[0] * source.[0] + this.[3] * source.[1]) in
  let result := store result 3 (this.[0] * source.[3] + this.[3] * source.[4]) in
  let result := store result 1 (this.[1] * source.[0] + this.[4] * source.[1]) in
  let result := store result 4 (this.[1] * source.[3] + this.[4] * source.[4]) in
  result.

Definition rotate `{Trig T} (angle : T) (this : list T) : list T :=
  let c := cos angle in
  let s := sin angle in
  let temp1 := this.[0] in
  let temp2 := this.[1] in
  let this := store this 0 (c * temp1 + s * temp2) in
  let this := store this 1 (- s * temp1 + c * temp2) in
  let temp1 := this.[3] in
  let temp2 := this.[4] in
  let this := store this 3 (c * temp1 + s * temp2) in
  let this := store this 4 (- s * temp1 + c * temp2) in
  this.



(** [invScale]: the factors are inverted after the default for [sy]. *)
Definition invScale (sx sy : option T) (this : list T) : list T :=
  let sy := if to_boolean sx && negb (to_boolean sy) then sx else sy in
  scale (Some (1 / to_number sx)) (Some (1 / to_number sy)) this.

(** [transpose] has an empty body. *)
Definition transpose (this : list T) : list T := this.

(** [adobeMatrix(x, y)]: the six numbers handed to the host. The work is
    done on [this.get()], a copy; [as_pt v] is
    [new UnitValue(v, currUnits).as("pt")]. *)
Definition adobeMatrix (as_pt : T -> T) (x y : option T) (this : list T) : list T :=
  let tmpMatrix := this in
  let tmpMatrix := preApply tmpMatrix [1; 0; - to_number x; 0; 1; - to_number y] in
  let tmpMatrix := apply tmpMatrix [1; 0; to_number x; 0; 1; to_number y] in
  let uVX := tmpMatrix.[2] in
  let uVY := tmpMatrix.[5] in
  [tmpMatrix.[0]; tmpMatrix.[3]; tmpMatrix.[1]; tmpMatrix.[4]; as_pt uVX; as_pt uVY].
End Methods.
End Matrix2D.

(** ** Outcomes of a call: a value or a raised exception, and the state *)

Inductive Exn : Type :=
  | BasilError (msg : string)   (* error(msg): throw new Error(ERROR_PREFIX + msg) *)
  | TypeError                   (* raised by the engine: a property of undefined *)
  | HostError                   (* raised by a host (InDesign) method *)
  | OutOfFuel.                  (* the model's recursion bound was reached *)

Inductive Outcome (S A : Type) : Type :=
  | Return (a : A) (s : S)
  | Throw (e : Exn) (s : S).
Arguments Return {S A} a s.
Arguments Throw {S A} e s.

Definition M (S A : Type) : Type := S -> Outcome S A.

Definition ret {S A : Type} (a : A) : M S A := fun s => Return a s.

Definition bind {S A B : Type} (c : M S A) (k : A -> M S B) : M S B :=
  fun s => match c s with
           | Return a s' => k a s'
           | Throw e s' => Throw e s'
           end.

Definition throw {S A : Type} (e : Exn) : M S A := fun s => Throw e s.

(** [error(msg)] of core.js: prints the message and throws. *)
Definition error {S A : Type} (msg : string) : M S A := throw (BasilError msg).

Definition gets {S A : Type} (f : S -> A) : M S A := fun s => Return (f s) s.
Definition modify {S : Type} (f : S -> S) : M S unit := fun s => Return tt (f s).

Declare Scope monad_scope.
Delimit Scope monad_scope with monad.
Notation "'let*' x ':=' c 'in' k" := (bind c (fun x => k))
  (at level 10, x name, c at level 100, k at level 200) : monad_scope.
Notation "c ';;' k" := (bind c (fun _ => k))
  (at level 100, k at level 200, right associativity) : monad_scope.

(** ** The store: JS arrays and Matrix2D objects by reference *)

Abbreviation loc := positive.

Record State (T : Type) : Type := mkState {
  arrays : gmap loc (list T);   (* the arrays of Numbers that are reachable *)
  objects : gmap loc loc;       (* Matrix2D objects: the array in [elements] *)
  currMatrix : loc;             (* var currMatrix: a Matrix2D object *)
  matrixStack : list loc;       (* var matrixStack: arrays, last pushed last *)
  currOriginX : T;
  currOriginY : T
}.
Arguments mkState {T}.
Arguments arrays {T}.
Arguments objects {T}.
Arguments currMatrix {T}.
Arguments matrixStack {T}.
Arguments currOriginX {T}.
Arguments currOriginY {T}.

(** One argument as [apply], [preApply] and [applyMatrix] tell them apart. *)
Inductive MatrixArg : Type :=
  | AMatrix (m : loc)                 (* instanceof Matrix2D *)
  | AArray (a : loc)                  (* instanceof Array *)
  | AOther.                           (* anything else *)

(** The [arguments] of [apply] and [preApply]. *)
Inductive MatrixArgs (T : Type) : Type :=
  | One (v : MatrixArg)               (* arguments.length === 1 *)
  | Six (a b c d e f : T)             (* arguments.length === 6 *)
  | NoMatch.                          (* any other number of arguments *)
Arguments One {T}.
Arguments Six {T}.
Arguments NoMatch {T}.

Module Heap.
Section Heap.
Context {T : Type} `{Number T}.
Local Open Scope monad_scope.

Definition set_arrays (f : gmap loc (list T) -> gmap loc (list T)) (s : State T) : State T :=
  mkState (f (arrays s)) (objects s) (currMatrix s) (matrixStack s)
          (currOriginX s) (currOriginY s).
Definition set_objects (f : gmap loc loc -> gmap loc loc) (s : State T) : State T :=
  mkState (arrays s) (f (objects s)) (currMatrix s) (matrixStack s)
          (currOriginX s) (currOriginY s).
Definition set_currMatrix (o : loc) (s : State T) : State T :=
  mkState (arrays s) (objects s) o (matrixStack s) (currOriginX s) (currOriginY s).
Definition set_matrixStack (f : list loc -> list loc) (s : State T) : State T :=
  mkState (arrays s) (objects s) (currMatrix s) (f (matrixStack s))
          (currOriginX s) (currOriginY s).

(** Reading the contents of an array. *)
Definition read (a : loc) : M (State T) (list T) :=
  fun s => match arrays s !! a with
           | Some es => Return es s
           | None => Throw TypeError s
           end.

(** Assigning into an existing array: every holder of [a] sees it. *)
Definition write (a : loc) (es : list T) : M (State T) unit :=
  modify (set_arrays (insert a es)).

(** A new array: a reference no one holds yet. *)
Definition alloc (es : list T) : M (State T) loc :=
  fun s => let a := fresh (dom (arrays s)) in
           Return a (set_arrays (insert a es) s).

(** [a.slice()]. *)
Definition slice (a : loc) : M (State T) loc :=
  let* es := read a in alloc es.

(** [this.elements]; every use indexes it or calls [slice] on it, which
    raises a TypeError when the field is undefined. *)
Definition elements (this : loc) : M (State T) loc :=
  fun s => match objects s !! this with
           | Some a => Return a s
           | None => Throw TypeError s
           end.

(** [this.elements = a]. *)
Definition set_elements (this a : loc) : M (State T) unit :=
  modify (set_objects (insert this a)).

(** A method that assigns into [this.elements[i]]. *)
Definition in_place (f : list T -> list T) (this : loc) : M (State T) unit :=
  let* a := elements this in
  let* es := read a in
  write a (f es).

(** [array]: [this.elements.slice()]. *)
Definition array (this : loc) : M (State T) loc :=
  let* a := elements this in slice a.

(** [set] with one Array argument: [this.elements = arguments[0].slice()]. *)
Definition set_Array (this a : loc) : M (State T) unit :=
  let* a' := slice a in set_elements this a'.

(** [set] with one Matrix2D argument: [this.elements = arguments[0].array()]. *)
Definition set_Matrix2D (this m : loc) : M (State T) unit :=
  let* a' := array m in set_elements this a'.

(** [reset]: [this.set([1, 0, 0, 0, 1, 0])]. *)
Definition reset (this : loc) : M (State T) unit :=
  let* a := alloc Matrix2D.reset in set_Array this a.

(** [new Matrix2D()]. *)
Definition new_Matrix2D : M (State T) loc :=
  fun s => let o := fresh (dom (objects s)) in
           match reset o s with
           | Return _ s' => Return o s'
           | Throw e s' => Throw e s'
           end.

(** [get]: a new Matrix2D and [set(this.elements)] on it, which copies the
    elements when they are an array; when [this.elements] is undefined
    [set] matches none of its cases and the new matrix stays the identity. *)
Definition get (this : loc) : M (State T) loc :=
  let* outgoing := new_Matrix2D in
  let* elements := gets (fun s => objects s !! this) in
  match elements with
  | Some a => set_Array outgoing a
  | None => ret tt
  end;;
  ret outgoing.

Definition translate (tx ty : T) (this : loc) : M (State T) unit :=
  in_place (Matrix2D.translate tx ty) this.

Definition scale (sx sy : option T) (this : loc) : M (State T) unit :=
  in_place (Matrix2D.scale sx sy) this.

Definition rotate `{Trig T} (angle : T) (this : loc) : M (State T) unit :=
  in_place (Matrix2D.rotate angle) this.

Definition invert (this : loc) : M (State T) bool :=
  let* a := elements this in
  let* es := read a in
  write a (snd (Matrix2D.invert es));;
  ret (fst (Matrix2D.invert es)).

(** The array [source] that the argument forms of [apply] reduce to.
    With any other argument [source] stays undefined and the first
    [source[col + 0]] raises. *)
Definition source_of (arguments : MatrixArgs T) : M (State T) (list T) :=
  match arguments with
  | One (AMatrix m) => let* a := array m in read a
  | Six a b c d e f => ret [a; b; c; d; e; f]
  | One (AArray a) => read a
  | One AOther | NoMatch => throw TypeError
  end.

(** [apply]: [this.elements = result.slice()], a new array. *)
Definition apply (arguments : MatrixArgs T) (this : loc) : M (State T) unit :=
  let* source := source_of arguments in
  let* a := elements this in
  let* es := read a in
  let* result := alloc (Matrix2D.apply es source) in
  let* a' := slice result in
  set_elements this a'.

Definition preApply (arguments : MatrixArgs T) (this : loc) : M (State T) unit :=
  let* source := source_of arguments in
  let* a := elements this in
  let* es := read a in
  let* result := alloc (Matrix2D.preApply es source) in
  let* a' := slice result in
  set_elements this a'.
End Heap.
End Heap.

(** ** The public matrix-stack functions *)

Module pub.
Section Pub.
Context {T : Type} `{Number T}.
Local Open Scope monad_scope.

(** [Array.prototype.pop] on [matrixStack]: the last element, removed. *)
Definition stack_pop : M (State T) (option loc) :=
  fun s => match last (matrixStack s) with
           | Some a => Return (Some a) (Heap.set_matrixStack (fun stack => removelast stack) s)
           | None => Return None s
           end.

(** [matrix(m)]: [None] is any argument that is not a Matrix2D. *)
Definition matrix (m : option loc) : M (State T) loc :=
  match m with
  | Some o => modify (Heap.set_currMatrix o)
  | None => ret tt
  end;;
  gets currMatrix.

Definition applyMatrix (matrix : MatrixArg) : M (State T) unit :=
  let* this := gets currMatrix in
  Heap.apply (One matrix) this.

Definition popMatrix : M (State T) unit :=
  let* stack := gets matrixStack in
  if (0 <? length stack)%nat then
    let* top := stack_pop in
    match top with
    | Some a => let* this := gets currMatrix in Heap.set_Array this a
    | None => ret tt                  (* set(undefined) matches no case of set *)
    end
  else
    error "popMatrix(), missing a pushMatrix() to go with that popMatrix()".

Definition pushMatrix : M (State T) unit :=
  let* this := gets currMatrix in
  let* a := Heap.array this in
  modify (Heap.set_matrixStack (fun stack => stack ++ [a])).

(** [rotate(angle)]: [None] is an argument that is undefined. *)
Definition rotate `{Trig T} (angle : option T) : M (State T) unit :=
  match angle with
  | None => error "Please provide an angle for rotation."
  | Some _ => ret tt
  end;;
  let* this := gets currMatrix in
  Heap.rotate (to_number angle) this.

(** [scale(scaleX, scaleY)] on its [arguments]: an entry is a Number, or
    [None] for a value whose [typeof] is not "number". Where the check lets
    such a value through (a call with three or more arguments), [None] is
    the value undefined; any other value that is not a Number is outside
    this model there. *)
Definition scale (arguments : list (option T)) : M (State T) unit :=
  let argument i := mjoin (arguments !! i) in
  (if negb (bool_decide (is_Some (argument 0%nat)))
      || (bool_decide (length arguments = 2%nat)
          && negb (bool_decide (is_Some (argument 1%nat))))
   then error "Please provide valid x and/or y factors for scaling."
   else ret tt);;
  let* this := gets currMatrix in
  Heap.scale (argument 0%nat) (argument 1%nat) this.

Definition translate (tx ty : option T) : M (State T) unit :=
  (if negb (bool_decide (is_Some tx)) || negb (bool_decide (is_Some ty))
   then error "Please provide x and y coordinates for translation."
   else ret tt);;
  let* this := gets currMatrix in
  Heap.translate (to_number tx) (to_number ty) this.

Definition resetMatrix : M (State T) unit :=
  modify (Heap.set_matrixStack (fun _ => []));;
  let* o := Heap.new_Matrix2D in
  modify (Heap.set_currMatrix o);;
  let* x := gets currOriginX in
  let* y := gets currOriginY in
  translate (Some x) (Some y).
End Pub.
End pub.

(** ** Scripts over the matrix stack *)

(** A call that changes the current matrix. *)
Inductive Mutation (T : Type) : Type :=
  | MRotate (angle : option T)
  | MScale (arguments : list (option T))
  | MTranslate (tx ty : option T)
  | MApplyMatrix (matrix : MatrixArg).
Arguments MRotate {T}.
Arguments MScale {T}.
Arguments MTranslate {T}.
Arguments MApplyMatrix {T}.

Section Scripts.
Context {T : Type} `{Number T} `{Trig T}.
Local Open Scope monad_scope.

Definition mutate (m : Mutation T) : M (State T) unit :=
  match m with
  | MRotate angle => pub.rotate angle
  | MScale arguments => pub.scale arguments
  | MTranslate tx ty => pub.translate tx ty
  | MApplyMatrix matrix => pub.applyMatrix matrix
  end.

(** The calls of [ms] one after the other; a raised error ends the script. *)
Fixpoint mutations (ms : list (Mutation T)) : M (State T) unit :=
  match ms with
  | [] => ret tt
  | m :: ms => mutate m;; mutations ms
  end.

(** [pushMatrix(); <ms>; popMatrix()]. *)
Definition scoped (ms : list (Mutation T)) : M (State T) unit :=
  pub.pushMatrix;; mutations ms;; pub.popMatrix.

(** The six numbers of the current matrix. *)
Definition current (s : State T) : option (list T) :=
  a ← objects s !! currMatrix s; arrays s !! a.

(** A Matrix2D object whose [elements] is an array. *)
Definition live (s : State T) (o : loc) : Prop :=
  ∃ a, objects s !! o = Some a ∧ is_Some (arrays s !! a).

(** The arguments with which a call does not raise. *)
Definition accepted (s : State T) (m : Mutation T) : Prop :=
  match m with
  | MRotate angle => is_Some angle
  | MScale arguments =>
      is_Some (mjoin (arguments !! 0%nat))
      ∧ (length arguments = 2%nat → is_Some (mjoin (arguments !! 1%nat)))
  | MTranslate tx ty => is_Some tx ∧ is_Some ty
  | MApplyMatrix (AMatrix m) => live s m
  | MApplyMatrix (AArray a) => is_Some (arrays s !! a)
  | MApplyMatrix AOther => False
  end.

(** The state between a [pushMatrix()] and its [popMatrix()]: the array
    [p] on top of the stack still holds the snapshot, and is not the array
    the current matrix [o] assigns into. *)
Definition keeps (p : loc) (snapshot : list T) (o : loc) (below : list loc)
    (s : State T) : Prop :=
  arrays s !! p = Some snapshot
  ∧ currMatrix s = o
  ∧ matrixStack s = below ++ [p]
  ∧ ∃ a, objects s !! o = Some a ∧ a ≠ p ∧ is_Some (arrays s !! a).

(** Nothing that was an array or a matrix with elements stops being one. *)
Definition extends (s s' : State T) : Prop :=
  (∀ a, is_Some (arrays s !! a) → is_Some (arrays s' !! a))
  ∧ (∀ o, live s o → live s' o).
End Scripts.

(** The numbers a Matrix2D object holds. *)
Definition contents {T : Type} (s : State T) (o : loc) : option (list T) :=
  a ← objects s !! o; arrays s !! a.

(** ** Scripts with nested scopes *)

(** One call of a script that saves, restores or changes the current
    matrix. *)
Inductive Call (T : Type) : Type :=
  | CPushMatrix
  | CPopMatrix
  | CMutation (m : Mutation T).
Arguments CPushMatrix {T}.
Arguments CPopMatrix {T}.
Arguments CMutation {T}.

Section Nested.
Context {T : Type} `{Number T} `{Trig T}.
Local Open Scope monad_scope.

Definition call (c : Call T) : M (State T) unit :=
  match c with
  | CPushMatrix => pub.pushMatrix
  | CPopMatrix => pub.popMatrix
  | CMutation m => mutate m
  end.

(** The calls of [cs] one after the other; a raised error ends the script. *)
Fixpoint calls (cs : list (Call T)) : M (State T) unit :=
  match cs with
  | [] => ret tt
  | c :: cs => call c;; calls cs
  end.

(** The number of open [pushMatrix()] after [cs], starting with [depth] of
    them; [None] when a [popMatrix()] comes with none open. *)
Fixpoint nesting (cs : list (Call T)) (depth : nat) : option nat :=
  match cs with
  | [] => Some depth
  | CPushMatrix :: cs => nesting cs (S depth)
  | CPopMatrix :: cs =>
      match depth with
      | O => None
      | S depth => nesting cs depth
      end
  | CMutation _ :: cs => nesting cs depth
  end.

(** The calls of [cs] that change the current matrix. *)
Definition mutations_of (cs : list (Call T)) : list (Mutation T) :=
  omap (fun c => match c with CMutation m => Some m | _ => None end) cs.

(** The array [p] holds [snapshot] and is not the array the current matrix
    assigns into. *)
Definition saved (s : State T) (e : loc * list T) : Prop :=
  arrays s !! e.1 = Some e.2
  ∧ ∃ a, objects s !! currMatrix s = Some a ∧ a ≠ e.1 ∧ is_Some (arrays s !! a).

(** A computation that neither reads nor changes the stack. *)
Definition framed {A : Type} (c : M (State T) A) : Prop :=
  ∀ f s, c (Heap.set_matrixStack f s) =
         match c s with
         | Return a s' => Return a (Heap.set_matrixStack f s')
         | Throw e s' => Throw e (Heap.set_matrixStack f s')
         end.
End Nested.

(** ** The host application and the helpers [transform] relies on *)

Inductive AnchorPoint : Type :=
  | TOP_LEFT_ANCHOR | TOP_CENTER_ANCHOR | TOP_RIGHT_ANCHOR
  | LEFT_CENTER_ANCHOR | CENTER_ANCHOR | RIGHT_CENTER_ANCHOR
  | BOTTOM_LEFT_ANCHOR | BOTTOM_CENTER_ANCHOR | BOTTOM_RIGHT_ANCHOR.

Inductive MeasurementUnits : Type :=
  | POINTS | MILLIMETERS | CENTIMETERS | INCHES | PIXELS.

Inductive WhenScalingOptions : Type :=
  | ADJUST_SCALING_PERCENTAGE | APPLY_TO_CONTENT.

(** The values of [currRefPoint]: the keys of [idAnchorPoints]. *)
Inductive RefPoint : Type :=
  | topLeft | topCenter | topRight
  | centerLeft | center | centerRight
  | bottomLeft | bottomCenter | bottomRight.

(** The values of [currUnits]: the keys of [basilUnits]. *)
Inductive Units : Type := pt | mm | cm | inch | px.

Inductive CanvasMode : Type :=
  | PAGE | MARGIN | BLEED | FACING_PAGES | FACING_MARGINS | FACING_BLEEDS.

(** The third parameter of [transform]. *)
Inductive Value (T : Type) : Type :=
  | VUndefined
  | VNumber (x : T)
  | VArray (l : list T)
  | VString (s : string).
Arguments VUndefined {T}.
Arguments VNumber {T} x.
Arguments VArray {T} l.
Arguments VString {T} s.

(** What [transform] calls and does not define. The page item, the page and
    the transformation matrix are objects of the host; [item_transform] is
    [pItem.transform(CoordinateSpaces.PASTEBOARD_COORDINATES, aPoint, tm)],
    [None] when the host raises; [item_resolve] and [page_resolve] are the
    first entry of [resolve([anchor, GEOMETRIC_PATH_BOUNDS, INNER_COORDINATES],
    SPREAD_COORDINATES)]; [firstPage p] is [p.parent.pages.firstItem()];
    [UnitValue_as v u u'] is [UnitValue(v, u).as(u')]. [precision],
    [isNumber] and [isArray] are helpers the library defines in its other
    files: [precision] and [isNumber] on a Number ([isNumber_num]) are left
    open here, [isNumber] is false on every value that is not a Number, and
    [isArray] is true on arrays and on nothing else. *)
Class Host (T : Type) : Type := {
  PageItem : Type;
  Page : Type;
  TransformationMatrix : Type;
  geometricBounds : PageItem -> list T;
  rotationAngle : PageItem -> T;
  shearAngle : PageItem -> T;
  horizontalScale : PageItem -> T;
  verticalScale : PageItem -> T;
  transformationMatrices_add : TransformationMatrix;
  scaleMatrix : TransformationMatrix -> T -> T -> TransformationMatrix;
  translateMatrix : TransformationMatrix -> T -> T -> TransformationMatrix;
  rotateMatrix : TransformationMatrix -> T -> TransformationMatrix;
  shearMatrix : TransformationMatrix -> T -> TransformationMatrix;
  item_transform : PageItem -> AnchorPoint -> TransformationMatrix -> option PageItem;
  item_resolve : PageItem -> AnchorPoint -> list T;
  page_resolve : Page -> list T;
  firstPage : Page -> Page;
  UnitValue_as : T -> MeasurementUnits -> MeasurementUnits -> T;
  precision : T -> Z -> T;
  isNumber_num : T -> bool
}.

Record TransformPreferences : Type := mkPrefs {
  adjustStrokeWeightWhenScaling : bool;
  whenScaling : WhenScalingOptions
}.

(** The globals [transform] reads. *)
Record Env (T : Type) `{Host T} : Type := mkEnv {
  currRefPoint : RefPoint;
  currUnits : Units;
  currCanvasMode : CanvasMode;
  currPage : Page;
  originX : T;                 (* currOriginX *)
  originY : T                  (* currOriginY *)
}.
Arguments mkEnv {T _}.
Arguments currRefPoint {T _}.
Arguments currUnits {T _}.
Arguments currCanvasMode {T _}.
Arguments currPage {T _}.
Arguments originX {T _}.
Arguments originY {T _}.

(** What [transform] changes: [app.transformPreferences] and the object its
    first parameter refers to; [pItem] is [None] when that parameter is not
    an object with a [geometricBounds] property of its own. *)
Record App (T : Type) `{Host T} : Type := mkApp {
  transformPreferences : TransformPreferences;
  pItem : option PageItem
}.
Arguments mkApp {T _}.
Arguments transformPreferences {T _}.
Arguments pItem {T _}.

Module Facade.
Section Facade.
Context {T : Type} `{Number T} `{Host T}.
Variable env : Env T.
Local Open Scope monad_scope.
Local Open Scope num_scope.

Definition idAnchorPoints (rp : RefPoint) : AnchorPoint :=
  match rp with
  | topLeft => TOP_LEFT_ANCHOR
  | topCenter => TOP_CENTER_ANCHOR
  | topRight => TOP_RIGHT_ANCHOR
  | centerLeft => LEFT_CENTER_ANCHOR
  | center => CENTER_ANCHOR
  | centerRight => RIGHT_CENTER_ANCHOR
  | bottomLeft => BOTTOM_LEFT_ANCHOR
  | bottomCenter => BOTTOM_CENTER_ANCHOR
  | bottomRight => BOTTOM_RIGHT_ANCHOR
  end.

Definition basilUnits (u : Units) : MeasurementUnits :=
  match u with
  | pt => POINTS
  | mm => MILLIMETERS
  | cm => CENTIMETERS
  | inch => INCHES
  | px => PIXELS
  end.

(** The message of the last branch; [q] is the double quote. *)
Definition invalid_transform_type : string :=
  let q := String (Ascii.ascii_of_nat 34) EmptyString in
  "transform(), invalid transform type. Use "
  +:+ q +:+ "translate" +:+ q +:+ ", " +:+ q +:+ "rotate" +:+ q +:+ ", "
  +:+ q +:+ "scale" +:+ q +:+ ", " +:+ q +:+ "shear" +:+ q +:+ ", "
  +:+ q +:+ "size" +:+ q +:+ ", " +:+ q +:+ "width" +:+ q +:+ ", "
  +:+ q +:+ "height" +:+ q +:+ ", " +:+ q +:+ "position" +:+ q +:+ ", "
  +:+ q +:+ "x" +:+ q +:+ " or " +:+ q +:+ "y" +:+ q +:+ ".".

Definition isNumber (v : Value T) : bool :=
  match v with VNumber x => isNumber_num x | _ => false end.

Definition isArray (v : Value T) : bool :=
  match v with VArray _ => true | _ => false end.

(** A value used as a Number, and [value[i]]. *)
Definition number_of (v : Value T) : T :=
  match v with VNumber x => x | _ => undef end.
Definition entry (v : Value T) (i : nat) : T :=
  match v with VArray l => l.[i] | _ => undef end.

Definition set_transformPreferences (p : TransformPreferences) : M (App T) unit :=
  modify (fun s => mkApp p (pItem s)).

(** [pItem.transform(CoordinateSpaces.PASTEBOARD_COORDINATES, aPoint, tm)]. *)
Definition pItem_transform (aPoint : AnchorPoint) (tm : TransformationMatrix) : M (App T) unit :=
  fun s => match pItem s with
           | Some it =>
               match item_transform it aPoint tm with
               | Some it' => Return tt (mkApp (transformPreferences s) (Some it'))
               | None => Throw HostError s
               end
           | None => Throw TypeError s
           end.

(** A property of [pItem], read now. *)
Definition pItem_get {A : Type} (f : PageItem -> A) : M (App T) A :=
  fun s => match pItem s with
           | Some it => Return (f it) s
           | None => Throw TypeError s
           end.

(** How a branch of [transform] ends: with a [return], or by falling
    through to the end of the function with [result] set or still null. *)
Inductive Branch : Type :=
  | Returned (v : Value T)
  | Fell (result : option (Value T)).

(** The body of [transform]; the calls it makes to [transform] go to the
    function it is given. *)
Definition transform_body (transform : string -> Value T -> M (App T) (Value T))
    (type : string) (value : Value T) : M (App T) (Value T) :=
  let* ok := gets (fun s => match pItem s with Some _ => true | None => false end) in
  (if negb ok then error "transform(), invalid first parameter. Use page item."
   else ret tt);;
  set_transformPreferences (mkPrefs false ADJUST_SCALING_PERCENTAGE);;
  let aPoint := idAnchorPoints (currRefPoint env) in
  let unitEnum := basilUnits (currUnits env) in
  let tm := transformationMatrices_add in
  let* bounds := pItem_get geometricBounds in
  let w := abs (bounds.[3] - bounds.[1]) in
  let h := abs (bounds.[2] - bounds.[0]) in
  let* branch :=
    if (type =? "width")%string then
      if isNumber value then
        let tm := scaleMatrix tm (number_of value / w) 1 in
        pItem_transform aPoint tm;;
        ret (Fell None)
      else ret (Fell (Some (VNumber (precision w 12))))
    else if (type =? "height")%string then
      if isNumber value then
        let tm := scaleMatrix tm 1 (number_of value / h) in
        pItem_transform aPoint tm;;
        ret (Fell None)
      else ret (Fell (Some (VNumber (precision h 12))))
    else if (type =? "size")%string then
      if isArray value then
        let tm := scaleMatrix tm (entry value 0 / w) (entry value 1 / h) in
        pItem_transform aPoint tm;;
        ret (Fell None)
      else ret (Fell (Some (VArray [precision w 12; precision h 12])))
    else if (type =? "translate")%string || (type =? "translation")%string then
      (if isArray value then
         (* value[0] and value[1] are converted to points in the array the
            caller passed; the array is not part of what the call returns *)
         let value0 := UnitValue_as (entry value 0) unitEnum POINTS in
         let value1 := UnitValue_as (entry value 1) unitEnum POINTS in
         let tm := translateMatrix tm value0 value1 in
         pItem_transform aPoint tm
       else ret tt);;
      let* result := transform "position" VUndefined in
      ret (Fell (Some result))
    else if (type =? "rotate")%string || (type =? "rotation")%string then
      (if isNumber value then
         let* angle := pItem_get rotationAngle in
         let tm := rotateMatrix tm (- angle - number_of value) in
         pItem_transform aPoint tm
       else ret tt);;
      let* angle := pItem_get rotationAngle in
      ret (Fell (Some (VNumber (- angle))))
    else if (type =? "scale")%string || (type =? "scaling")%string then
      (if isNumber value then
         let tm := scaleMatrix tm (number_of value) (number_of value) in
         pItem_transform aPoint tm
       else if isArray value then
         let tm := scaleMatrix tm (entry value 0) (entry value 1) in
         pItem_transform aPoint tm
       else ret tt);;
      let* hs := pItem_get horizontalScale in
      let* vs := pItem_get verticalScale in
      ret (Fell (Some (VArray [hs / 100; vs / 100])))
    else if (type =? "shear")%string || (type =? "shearing")%string then
      (if isNumber value then
         let* angle := pItem_get shearAngle in
         let tm := shearMatrix tm (- angle - number_of value) in
         pItem_transform aPoint tm
       else ret tt);;
      let* angle := pItem_get shearAngle in
      ret (Fell (Some (VNumber (- angle))))
    else if (type =? "position")%string || (type =? "x")%string
            || (type =? "y")%string then
      let refPage :=
        match currCanvasMode env with
        | PAGE | MARGIN | BLEED => currPage env
        | _ => firstPage (currPage env)
        end in
      let topLeft := page_resolve refPage in
      let topLeft := store topLeft 0
        (topLeft.[0] + UnitValue_as (originX env) unitEnum POINTS) in
      let topLeft := store topLeft 1
        (topLeft.[1] + UnitValue_as (originY env) unitEnum POINTS) in
      let* anchorPosOnSpread := pItem_get (fun it => item_resolve it aPoint) in
      let anchorPosOnPagePt :=
        [anchorPosOnSpread.[0] - topLeft.[0]; anchorPosOnSpread.[1] - topLeft.[1]] in
      let anchorPosOnPage :=
        [UnitValue_as anchorPosOnPagePt.[0] POINTS unitEnum;
         UnitValue_as anchorPosOnPagePt.[1] POINTS unitEnum] in
      if (type =? "x")%string then
        if isNumber value then
          transform "position"
            (VArray [number_of value; anchorPosOnPage.[1]]);;
          ret (Returned value)
        else ret (Fell (Some (VNumber (precision anchorPosOnPage.[0] 12))))
      else if (type =? "y")%string then
        if isNumber value then
          transform "position"
            (VArray [anchorPosOnPage.[0]; number_of value]);;
          ret (Returned value)
        else ret (Fell (Some (VNumber (precision anchorPosOnPage.[1] 12))))
      else
        if isArray value then
          let offset := [entry value 0 - anchorPosOnPage.[0];
                         entry value 1 - anchorPosOnPage.[1]] in
          transform "translate" (VArray offset);;
          ret (Returned value)
        else ret (Fell (Some (VArray [precision anchorPosOnPage.[0] 12;
                                      precision anchorPosOnPage.[1] 12])))
    else
      error invalid_transform_type
  in
  match branch with
  | Returned v => ret v
  | Fell result =>
      set_transformPreferences (mkPrefs true APPLY_TO_CONTENT);;
      ret (match result with
           | None => value
           | Some r => r
           end)
  end.

(** [transform], with a bound on how deep its calls to itself may go. *)
Fixpoint transform (fuel : nat) : string -> Value T -> M (App T) (Value T) :=
  match fuel with
  | O => fun _ _ => throw OutOfFuel
  | S fuel => transform_body (transform fuel)
  end.
End Facade.
End Facade.

(** ** A host of boxes, on binary64

    Page items are axis-parallel boxes on one page whose corner is the
    origin of the spread; a matrix scales or moves the box about the anchor
    and adds to its angles. [precision] leaves its argument as it is, which
    is what rounding to 12 fractional digits does to the numbers used
    below. *)
Module Boxes.
Local Open Scope float_scope.

Record Item : Type := mkItem {
  bounds : list float;          (* [y1, x1, y2, x2] *)
  rotation : float;
  shear : float;
  hscale : float;
  vscale : float
}.

Inductive Matrix : Type :=
  | MIdentity
  | MScaled (sx sy : float)
  | MTranslated (dx dy : float)
  | MRotated (a : float)
  | MSheared (a : float).

Definition anchor (it : Item) (p : AnchorPoint) : list float :=
  let y1 := nth 0 (bounds it) nan in
  let x1 := nth 1 (bounds it) nan in
  let y2 := nth 2 (bounds it) nan in
  let x2 := nth 3 (bounds it) nan in
  let xc := (x1 + x2) / 2 in
  let yc := (y1 + y2) / 2 in
  match p with
  | TOP_LEFT_ANCHOR => [x1; y1]
  | TOP_CENTER_ANCHOR => [xc; y1]
  | TOP_RIGHT_ANCHOR => [x2; y1]
  | LEFT_CENTER_ANCHOR => [x1; yc]
  | CENTER_ANCHOR => [xc; yc]
  | RIGHT_CENTER_ANCHOR => [x2; yc]
  | BOTTOM_LEFT_ANCHOR => [x1; y2]
  | BOTTOM_CENTER_ANCHOR => [xc; y2]
  | BOTTOM_RIGHT_ANCHOR => [x2; y2]
  end.

Definition transformed (it : Item) (p : AnchorPoint) (tm : Matrix) : option Item :=
  let y1 := nth 0 (bounds it) nan in
  let x1 := nth 1 (bounds it) nan in
  let y2 := nth 2 (bounds it) nan in
  let x2 := nth 3 (bounds it) nan in
  let ax := nth 0 (anchor it p) nan in
  let ay := nth 1 (anchor it p) nan in
  match tm with
  | MIdentity => Some it
  | MScaled sx sy =>
      Some (mkItem [ay + (y1 - ay) * sy; ax + (x1 - ax) * sx;
                    ay + (y2 - ay) * sy; ax + (x2 - ax) * sx]
                   (rotation it) (shear it) (hscale it * sx) (vscale it * sy))
  | MTranslated dx dy =>
      Some (mkItem [y1 + dy; x1 + dx; y2 + dy; x2 + dx]
                   (rotation it) (shear it) (hscale it) (vscale it))
  | MRotated a =>
      Some (mkItem (bounds it) (rotation it + a) (shear it) (hscale it) (vscale it))
  | MSheared a =>
      Some (mkItem (bounds it) (rotation it) (shear it + a) (hscale it) (vscale it))
  end.

(** Points per unit. *)
Definition points (u : MeasurementUnits) : float :=
  match u with
  | POINTS => 1
  | MILLIMETERS => 72 / (254 / 10)
  | CENTIMETERS => 72 / (254 / 100)
  | INCHES => 72
  | PIXELS => 1
  end.

#[export] Instance host : Host float := {|
  PageItem := Item;
  Page := unit;
  TransformationMatrix := Matrix;
  geometricBounds := bounds;
  rotationAngle := rotation;
  shearAngle := shear;
  horizontalScale := hscale;
  verticalScale := vscale;
  transformationMatrices_add := MIdentity;
  scaleMatrix := fun _ sx sy => MScaled sx sy;
  translateMatrix := fun _ dx dy => MTranslated dx dy;
  rotateMatrix := fun _ a => MRotated a;
  shearMatrix := fun _ a => MSheared a;
  item_transform := transformed;
  item_resolve := anchor;
  page_resolve := fun _ => [0; 0];
  firstPage := fun p => p;
  UnitValue_as := fun v u u' => v * points u / points u';
  precision := fun x _ => x;
  isNumber_num := fun x => negb (PrimFloat.is_nan x) && negb (PrimFloat.is_infinity x)
|}.

Definition env : Env float := mkEnv topLeft pt PAGE tt 0 0.

(** A 100 x 100 box with its top left corner at (5, 5). *)
Definition box : Item := mkItem [5; 5; 105; 105] 0 0 100 100.

(** The state of a call on the item [it]. *)
Definition app (adjust : bool) (scaling : WhenScalingOptions) (it : Item) : App float :=
  mkApp (mkPrefs adjust scaling) (Some it).
End Boxes.

(** The recursion of [transform] is four calls deep at most
    ([x] or [y], [position], [translate], [position]). *)
Definition transform {T : Type} `{Number T} `{Host T} (env : Env T)
    (type : string) (value : Value T) : M (App T) (Value T) :=
  Facade.transform env 4 type value.

(** The second parameters [transform] has a branch for. *)
Definition transform_types : list string :=
  ["width"; "height"; "size"; "translate"; "translation"; "rotate"; "rotation";
   "scale"; "scaling"; "shear"; "shearing"; "position"; "x"; "y"].

(** ** The canvas modes (core.js, environment.js)

    [updatePublicPageSizeVars] is the caller of [resetMatrix] and
    [translate] inside the library. The document and the page are taken to
    be set already, so that [currentPage()] and [doc()] return them and
    change nothing; what the function reads of them is a [PageSetup]. *)
Module Canvas.
Record PageSetup (T : Type) : Type := mkPageSetup {
  bounds : list T;                       (* currentPage().bounds: [y1, x1, y2, x2] *)
  facingPages : bool;                    (* documentPreferences.facingPages *)
  right_hand : bool;                     (* currentPage().side === PageSideOptions.RIGHT_HAND *)
  named_1 : bool;                        (* currentPage().name === "1" *)
  left : T;                              (* currentPage().marginPreferences *)
  right : T;
  top : T;
  bottom : T;
  documentBleedInsideOrLeftOffset : T;   (* doc().documentPreferences *)
  documentBleedOutsideOrRightOffset : T;
  documentBleedTopOffset : T;
  documentBleedBottomOffset : T
}.
Arguments mkPageSetup {T}.
Arguments bounds {T}.
Arguments facingPages {T}.
Arguments right_hand {T}.
Arguments named_1 {T}.
Arguments left {T}.
Arguments right {T}.
Arguments top {T}.
Arguments bottom {T}.
Arguments documentBleedInsideOrLeftOffset {T}.
Arguments documentBleedOutsideOrRightOffset {T}.
Arguments documentBleedTopOffset {T}.
Arguments documentBleedBottomOffset {T}.

(** The matrix state with [pub.width], [pub.height] and [currCanvasMode];
    [None] is a mode that is none of the six constants. *)
Record Sketch (T : Type) : Type := mkSketch {
  matrices : State T;
  width : T;
  height : T;
  currCanvasMode : option CanvasMode
}.
Arguments mkSketch {T}.
Arguments matrices {T}.
Arguments width {T}.
Arguments height {T}.
Arguments currCanvasMode {T}.

Section Canvas.
Context {T : Type} `{Number T}.
Local Open Scope monad_scope.
Local Open Scope num_scope.

(** A function of transformation.js, run on the matrix state. *)
Definition on_matrices {A : Type} (c : M (State T) A) : M (Sketch T) A :=
  fun s => match c (matrices s) with
           | Return a m => Return a (mkSketch m (width s) (height s) (currCanvasMode s))
           | Throw e m => Throw e (mkSketch m (width s) (height s) (currCanvasMode s))
           end.

Definition set_width (w : T) : M (Sketch T) unit :=
  modify (fun s => mkSketch (matrices s) w (height s) (currCanvasMode s)).
Definition set_height (h : T) : M (Sketch T) unit :=
  modify (fun s => mkSketch (matrices s) (width s) h (currCanvasMode s)).
Definition set_currCanvasMode (m : CanvasMode) : M (Sketch T) unit :=
  modify (fun s => mkSketch (matrices s) (width s) (height s) (Some m)).

Definition resetMatrix : M (Sketch T) unit := on_matrices pub.resetMatrix.
Definition translate (tx ty : T) : M (Sketch T) unit :=
  on_matrices (pub.translate (Some tx) (Some ty)).

(** [updatePublicPageSizeVars]; [singlePage] is what follows the [switch]
    when [singlePageMode] was set, and nothing follows it otherwise. *)
Definition updatePublicPageSizeVars (page : PageSetup T) : M (Sketch T) unit :=
  let pageBounds := bounds page in
  let singlePage (widthOffset heightOffset : T) : M (Sketch T) unit :=
    let w := pageBounds.[3] - pageBounds.[1] + widthOffset in
    let h := pageBounds.[2] - pageBounds.[0] + heightOffset in
    set_width w;;
    set_height h in
  let* mode := gets currCanvasMode in
  match mode with
  | Some PAGE =>
      let widthOffset := 0 in
      let heightOffset := 0 in
      resetMatrix;;
      singlePage widthOffset heightOffset
  | Some MARGIN =>
      let widthOffset := - left page - right page in
      let heightOffset := - top page - bottom page in
      resetMatrix;;
      translate (left page) (top page);;
      singlePage widthOffset heightOffset
  | Some BLEED =>
      let widthOffset :=
        documentBleedInsideOrLeftOffset page + documentBleedOutsideOrRightOffset page in
      let widthOffset :=
        if facingPages page then documentBleedInsideOrLeftOffset page else widthOffset in
      let heightOffset :=
        documentBleedBottomOffset page + documentBleedTopOffset page in
      resetMatrix;;
      translate (- documentBleedInsideOrLeftOffset page) (- documentBleedTopOffset page);;
      (if facingPages page && right_hand page then
         resetMatrix;;
         translate 0 (- documentBleedTopOffset page)
       else ret tt);;
      singlePage widthOffset heightOffset
  | Some FACING_PAGES =>
      let widthOffset := 0 in
      let heightOffset := 0 in
      resetMatrix;;
      let w := pageBounds.[3] - pageBounds.[1] + widthOffset in
      let h := pageBounds.[2] - pageBounds.[0] + heightOffset in
      set_width (w * lit 2);;
      (if named_1 page then set_width w
       else if right_hand page then translate (- w) 0
       else ret tt);;
      set_height h
  | Some FACING_BLEEDS =>
      let widthOffset :=
        documentBleedInsideOrLeftOffset page + documentBleedOutsideOrRightOffset page in
      let heightOffset :=
        documentBleedBottomOffset page + documentBleedTopOffset page in
      resetMatrix;;
      translate (- documentBleedInsideOrLeftOffset page) (- documentBleedTopOffset page);;
      let w := pageBounds.[3] - pageBounds.[1] + widthOffset / lit 2 in
      let h := pageBounds.[2] - pageBounds.[0] + heightOffset in
      set_width (w * lit 2);;
      set_height h;;
      (if right_hand page then translate (- w + widthOffset / lit 2) 0
       else ret tt)
  | Some FACING_MARGINS =>
      let widthOffset := left page + right page in
      let heightOffset := top page + bottom page in
      resetMatrix;;
      translate (left page) (top page);;
      let w := pageBounds.[3] - pageBounds.[1] - widthOffset / lit 2 in
      let h := pageBounds.[2] - pageBounds.[0] - heightOffset in
      set_width (w * lit 2);;
      set_height h;;
      (if right_hand page then translate (- w - widthOffset / lit 2) 0
       else ret tt)
  | None =>
      error ("b.canvasMode(), basil.js canvasMode seems to be messed up, please use one of "
             +:+ "the following modes: b.PAGE, b.MARGIN, b.BLEED, b.FACING_PAGES, "
             +:+ "b.FACING_MARGINS, b.FACING_BLEEDS")
  end.

(** [canvasMode(m)]: the outer [None] is a call without arguments, the
    inner one an argument that is none of the six constants. *)
Definition canvasMode (page : PageSetup T) (m : option (option CanvasMode)) :
    M (Sketch T) (option CanvasMode) :=
  match m with
  | None => gets currCanvasMode
  | Some m =>
      match m with
      | Some mode =>
          set_currCanvasMode mode;;
          updatePublicPageSizeVars page
      | None =>
          error ("canvasMode(), there is a problem setting the canvasMode. "
                 +:+ "Please check the reference for details.")
      end;;
      gets currCanvasMode
  end.
End Canvas.
End Canvas.

(** A point with its two coordinates. *)
Definition two_coordinates {T : Type} (p : Point T) : Prop :=
  match p with
  | PVector _ _ _ => True
  | PArray l => length l = 2%nat
  end.

(** The state a call ends in, returned or raised. *)
Definition final_state {S A : Type} (o : Outcome S A) : S :=
  match o with
  | Return _ s => s
  | Throw _ s => s
  end.

(** * Properties *)

(** ** The methods on six-element arrays, unfolded *)

Section Unfolded.
Context {T : Type} `{Number T}.
Local Open Scope num_scope.

Lemma apply_six (m0 m1 m2 m3 m4 m5 s0 s1 s2 s3 s4 s5 : T) :
  Matrix2D.apply [m0; m1; m2; m3; m4; m5] [s0; s1; s2; s3; s4; s5] =
  [0 + (m0 * s0 + m1 * s3); 0 + (m0 * s1 + m1 * s4); m2 + (m0 * s2 + m1 * s5);
   0 + (m3 * s0 + m4 * s3); 0 + (m3 * s1 + m4 * s4); m5 + (m3 * s2 + m4 * s5)].
Proof. reflexivity. Qed.

Lemma rotate_six `{Trig T} (angle m0 m1 m2 m3 m4 m5 : T) :
  Matrix2D.rotate angle [m0; m1; m2; m3; m4; m5] =
  [cos angle * m0 + sin angle * m1; - sin angle * m0 + cos angle * m1; m2;
   cos angle * m3 + sin angle * m4; - sin angle * m3 + cos angle * m4; m5].
Proof. reflexivity. Qed.

Lemma invert_six (m0 m1 m2 m3 m4 m5 d : T) :
  d = m0 * m4 - m1 * m3 ->
  Matrix2D.invert [m0; m1; m2; m3; m4; m5] =
  if abs d >? - lit 2147483648 then
    (true, [m4 / d; - m1 / d; (m1 * m5 - m4 * m2) / d;
            - m3 / d; m0 / d; (m3 * m2 - m0 * m5) / d])
  else (false, [m0; m1; m2; m3; m4; m5]).
Proof.
  intros ->. unfold Matrix2D.invert, Matrix2D.determinant.
  change ([m0; m1; m2; m3; m4; m5].[0]) with m0.
  change ([m0; m1; m2; m3; m4; m5].[1]) with m1.
  change ([m0; m1; m2; m3; m4; m5].[3]) with m3.
  change ([m0; m1; m2; m3; m4; m5].[4]) with m4.
  destruct (abs _ >? _); reflexivity.
Qed.

Lemma mult_six_array (m0 m1 m2 m3 m4 m5 x y : T) :
  Matrix2D.mult [m0; m1; m2; m3; m4; m5] (PArray [x; y]) None =
  PArray [m0 * x + m1 * y + m2; m3 * x + m4 * y + m5].
Proof. reflexivity. Qed.

Lemma mult_six_vector (m0 m1 m2 m3 m4 m5 x y z : T) :
  Matrix2D.mult [m0; m1; m2; m3; m4; m5] (PVector x y z) None =
  PVector (m0 * x + m1 * y + m2) (m3 * x + m4 * y + m5) 0.
Proof. reflexivity. Qed.
End Unfolded.

(** Naming the six entries of the arrays whose length is known to be 6. *)
Ltac six :=
  repeat match goal with
         | Hl : length ?l = 6%nat |- _ =>
             is_var l; do 6 (destruct l as [|? l]; [discriminate Hl|]);
             destruct l; [clear Hl|discriminate Hl]
         end.

(** Entry by entry, in the field of the reals. *)
Ltac by_entries :=
  repeat (apply (f_equal2 cons)); try reflexivity; cbn; try ring; try (field; assumption).

(** ** Matrix2D over the reals *)

(** C1, amended. Over the reals, the Numbers taken in exact arithmetic:
    for six-element Matrix2D values M and S and a point p, the matrix that
    [M.apply(S)] leaves in M maps p to where M maps the image of p under S:
    [R.mult(p) = M.mult(S.mult(p))], on [Vector]s and on two-element arrays.
    On binary64 the two sides round differently and the equality is not
    promised. *)
Theorem apply_is_composition (M S : list R) (p : Point R) :
  length M = 6%nat -> length S = 6%nat -> two_coordinates p ->
  Matrix2D.mult (Matrix2D.apply M S) p None =
  Matrix2D.mult M (Matrix2D.mult S p None) None.
Proof.
  intros HM HS Hp. six.
  rewrite apply_six.
  destruct p as [x y z|l].
  - rewrite !mult_six_vector. cbn. f_equal; ring.
  - cbn in Hp. do 2 (destruct l as [|? l]; [discriminate Hp|]).
    destruct l; [|discriminate Hp].
    rewrite !mult_six_array. cbn. f_equal. by_entries.
Qed.

Lemma apply_is_composition_witness :
  Matrix2D.mult (Matrix2D.apply [2; 0; 1; 0; 3; 1]%R [1; 0; 4; 0; 1; 5]%R)
    (PArray [1; 2]%R) None =
  Matrix2D.mult [2; 0; 1; 0; 3; 1]%R
    (Matrix2D.mult [1; 0; 4; 0; 1; 5]%R (PArray [1; 2]%R) None) None.
Proof. apply apply_is_composition; reflexivity. Defined.

(** The guard of [invert] holds for every real determinant: an absolute
    value is never below [-2147483648]. *)
Lemma invert_guard_R (d : R) : (abs d >? - lit 2147483648)%num = true.
Proof.
  cbn. destruct (Rgt_dec _ _) as [|Hn]; [reflexivity|].
  exfalso. apply Hn. pose proof (Rabs_pos d). lra.
Qed.

Lemma determinant_six (m0 m1 m2 m3 m4 m5 : R) :
  Matrix2D.determinant [m0; m1; m2; m3; m4; m5] = (m0 * m4 - m1 * m3)%R.
Proof. reflexivity. Qed.

(** Over the reals, a quarter turn of the identity is not the identity
    composed with [cos, sin, 0, -sin, cos, 0]. *)
Lemma rotate_claimed_coefficients_differ :
  Matrix2D.rotate (PI / 2)%R Matrix2D.reset <>
  Matrix2D.apply Matrix2D.reset
    [cos (PI / 2)%R; sin (PI / 2)%R; 0%R; (- sin (PI / 2))%R; cos (PI / 2)%R; 0%R].
Proof.
  unfold Matrix2D.reset. rewrite rotate_six, apply_six. cbn.
  rewrite cos_PI2, sin_PI2. intros Heq.
  injection Heq as _ Heq _. lra.
Qed.

(** Over the reals, [M.rotate(angle)] leaves in a six-element M exactly what
    [M.apply] leaves with the rotation matrix [cos, -sin, 0, sin, cos, 0]. *)
Lemma rotate_is_apply_rotation_exact (angle : R) (M : list R) :
  length M = 6%nat ->
  Matrix2D.rotate angle M =
  Matrix2D.apply M [cos angle; (- sin angle)%R; 0%R; sin angle; cos angle; 0%R].
Proof.
  intros HM. six. rewrite rotate_six, apply_six. by_entries.
Qed.





(** ** Matrix2D on any Numbers *)

(** Writing back what an array already holds changes nothing. *)
Lemma write_same {T : Type} (s : State T) (a : loc) (es : list T) :
  arrays s !! a = Some es ->
  Heap.write a es s = Return tt s.
Proof.
  intros Ha. unfold Heap.write, modify, Heap.set_arrays.
  rewrite insert_id by exact Ha. destruct s; reflexivity.
Qed.

Lemma in_place_id {T : Type} (f : list T -> list T) (this : loc) (s : State T) :
  (forall es, f es = es) ->
  final_state (Heap.in_place f this s) = s.
Proof.
  intros Hf. unfold Heap.in_place, bind, Heap.elements, Heap.read.
  destruct (objects s !! this) as [a|]; [|reflexivity].
  destruct (arrays s !! a) as [es|] eqn:Ha; [|reflexivity].
  rewrite Hf, write_same by exact Ha. reflexivity.
Qed.

(** C10. A call [M.scale(sx, sy)] whose [sx] is falsy (zero, negative zero,
    NaN, or left out) leaves the elements of M as they are, whatever [sy]
    is; so does the public [scale], whether it reaches the matrix or raises
    on its own check. *)
Theorem scale_by_falsy_is_noop {T : Type} `{Number T} (sx sy : option T) :
  to_boolean sx = false ->
  (forall M : list T, Matrix2D.scale sx sy M = M)
  /\ (forall (this : loc) (s : State T), final_state (Heap.scale sx sy this s) = s)
  /\ (forall (arguments : list (option T)) (s : State T),
        mjoin (arguments !! 0%nat) = sx ->
        final_state (pub.scale arguments s) = s).
Proof.
  intros Hsx.
  assert (Hpure : forall sy' (M : list T), Matrix2D.scale sx sy' M = M).
  { intros sy' M. unfold Matrix2D.scale. rewrite Hsx. reflexivity. }
  split; [apply Hpure|]. split.
  - intros this s. apply in_place_id, Hpure.
  - intros arguments s <-. unfold pub.scale, bind, error, throw, ret.
    destruct (_ || _); [reflexivity|].
    cbn. apply in_place_id, Hpure.
Qed.

Lemma scale_by_falsy_is_noop_witness :
  to_boolean (Some 0%float) = false
  /\ Matrix2D.scale (Some 0%float) (Some 3%float) [1; 2; 3; 4; 5; 6]%float
     = [1; 2; 3; 4; 5; 6]%float.
Proof.
  split; [reflexivity|].
  apply (scale_by_falsy_is_noop (Some 0%float) (Some 3%float)). reflexivity.
Defined.

(** Negative zero and NaN are falsy as well. *)
Example falsy_floats :
  to_boolean (Some (-0)%float) = false /\ to_boolean (Some PrimFloat.nan) = false
  /\ to_boolean (@None float) = false.
Proof. repeat split. Qed.

(** Zero is the one falsy real. *)
Lemma falsy_R (x : R) : to_boolean (Some x) = false <-> x = 0%R.
Proof.
  cbn. destruct (Req_dec_T x 0); split; intros; congruence.
Qed.

(** C2, the run that contradicts it. The matrix [1, 2, 3, 2, 4, 5] has
    determinant 0; [invert] passes its guard, since no absolute value is
    below [-2147483648], divides by the determinant and returns true, with
    the elements overwritten by infinities. *)
Theorem invert_of_singular_returns_true :
  Matrix2D.determinant [1; 2; 3; 2; 4; 5]%float = 0%float
  /\ Matrix2D.invert [1; 2; 3; 2; 4; 5]%float
     = (true, [infinity; neg_infinity; neg_infinity;
               neg_infinity; infinity; infinity]).
Proof. split; reflexivity. Qed.

(** Over the reals the guard never sends [invert] to [return false]. *)
Lemma invert_never_refuses (M : list R) : fst (Matrix2D.invert M) = true.
Proof.
  unfold Matrix2D.invert. rewrite invert_guard_R. reflexivity.
Qed.

(** ** The matrix stack *)

(** C6. [popMatrix()] on an empty stack raises the error of [error(...)]
    and leaves the state, the current matrix with it, as it was. *)
Theorem popMatrix_on_empty_stack_raises {T : Type} `{Number T} (s : State T) :
  matrixStack s = [] ->
  pub.popMatrix s =
  Throw (BasilError "popMatrix(), missing a pushMatrix() to go with that popMatrix()") s.
Proof.
  intros Hs. unfold pub.popMatrix, bind, gets. rewrite Hs. reflexivity.
Qed.

Lemma popMatrix_on_empty_stack_raises_witness :
  pub.popMatrix (mkState {[2%positive := [1; 0; 0; 0; 1; 0]%float]} {[1%positive := 2%positive]}
                         1%positive [] 0%float 0%float) =
  Throw (BasilError "popMatrix(), missing a pushMatrix() to go with that popMatrix()")
        (mkState {[2%positive := [1; 0; 0; 0; 1; 0]%float]} {[1%positive := 2%positive]}
                 1%positive [] 0%float 0%float).
Proof. apply popMatrix_on_empty_stack_raises. reflexivity. Defined.

(** *** How the heap operations run *)

Section HeapRuns.
Context {T : Type} `{Number T}.

Lemma bind_Return {S A B : Type} (c : M S A) (k : A -> M S B) (s s' : S) (b : B) :
  bind c k s = Return b s' ->
  exists a s1, c s = Return a s1 /\ k a s1 = Return b s'.
Proof.
  unfold bind. destruct (c s) as [a s1|e s1]; [|discriminate].
  intros Hk. exists a, s1. split; [reflexivity|exact Hk].
Qed.

Lemma bind_run {S A B : Type} (c : M S A) (k : A -> M S B) (s s1 : S) (a : A) :
  c s = Return a s1 -> bind c k s = k a s1.
Proof. unfold bind. intros ->. reflexivity. Qed.

Lemma read_run (a : loc) (es : list T) (s : State T) :
  arrays s !! a = Some es -> Heap.read a s = Return es s.
Proof. unfold Heap.read. intros ->. reflexivity. Qed.

Lemma read_Return (a : loc) (es : list T) (s s' : State T) :
  Heap.read a s = Return es s' -> s' = s /\ arrays s !! a = Some es.
Proof.
  unfold Heap.read. destruct (arrays s !! a); [|discriminate].
  intros [= -> ->]. split; reflexivity.
Qed.

Lemma elements_run (o a : loc) (s : State T) :
  objects s !! o = Some a -> Heap.elements o s = Return a s.
Proof. unfold Heap.elements. intros ->. reflexivity. Qed.

Lemma elements_Return (o a : loc) (s s' : State T) :
  Heap.elements o s = Return a s' -> s' = s /\ objects s !! o = Some a.
Proof.
  unfold Heap.elements. destruct (objects s !! o); [|discriminate].
  intros [= -> ->]. split; reflexivity.
Qed.

(** A new array is a reference that held nothing before. *)
Lemma alloc_fresh (s : State T) : arrays s !! fresh (dom (arrays s)) = None.
Proof. apply not_elem_of_dom, is_fresh. Qed.

Lemma alloc_Return (es : list T) (a : loc) (s s' : State T) :
  Heap.alloc es s = Return a s' ->
  arrays s !! a = None /\ s' = Heap.set_arrays (insert a es) s.
Proof.
  unfold Heap.alloc. intros [= <- <-]. split; [apply alloc_fresh|reflexivity].
Qed.

Lemma slice_Return (a a' : loc) (s s' : State T) :
  Heap.slice a s = Return a' s' ->
  exists es, arrays s !! a = Some es /\ arrays s !! a' = None
             /\ s' = Heap.set_arrays (insert a' es) s.
Proof.
  intros Hs. apply bind_Return in Hs as (es & s1 & Hr & Ha).
  apply read_Return in Hr as [-> Hr]. apply alloc_Return in Ha as [Hf ->].
  exists es. auto.
Qed.

Lemma slice_run (a : loc) (es : list T) (s : State T) :
  arrays s !! a = Some es ->
  Heap.slice a s =
  Return (fresh (dom (arrays s))) (Heap.set_arrays (insert (fresh (dom (arrays s))) es) s).
Proof.
  intros Ha. unfold Heap.slice. erewrite bind_run by (apply read_run, Ha). reflexivity.
Qed.

Lemma in_place_run (f : list T -> list T) (o a : loc) (es : list T) (s : State T) :
  objects s !! o = Some a -> arrays s !! a = Some es ->
  Heap.in_place f o s = Return tt (Heap.set_arrays (insert a (f es)) s).
Proof.
  intros Ho Ha. unfold Heap.in_place.
  erewrite bind_run by (apply elements_run, Ho).
  erewrite bind_run by (apply read_run, Ha). reflexivity.
Qed.
End HeapRuns.

(** *** Between push and pop *)

Section PushPop.
Context {T : Type} `{Number T} `{Trig T}.

Lemma extends_refl (s : State T) : extends s s.
Proof. split; auto. Qed.

Lemma extends_trans (s1 s2 s3 : State T) :
  extends s1 s2 -> extends s2 s3 -> extends s1 s3.
Proof. intros [Ha Ho] [Ha' Ho']. split; auto. Qed.

Lemma accepted_extends (s s' : State T) (m : Mutation T) :
  extends s s' -> accepted s m -> accepted s' m.
Proof.
  intros [Ha Ho]. destruct m as [angle|arguments|tx ty|[m|a|]]; cbn; auto.
Qed.

(** Putting an array at a reference keeps every array an array. *)
Lemma insert_extends (a : loc) (es : list T) (s : State T) :
  extends s (Heap.set_arrays (insert a es) s).
Proof.
  assert (Harr : forall b, is_Some (arrays s !! b) ->
                           is_Some (<[a := es]> (arrays s) !! b)).
  { intros b Hb. destruct (decide (a = b)) as [->|Hne].
    - rewrite lookup_insert_eq. eauto.
    - rewrite lookup_insert_ne by exact Hne. exact Hb. }
  split; [exact Harr|].
  intros o (b & Hob & Hb). exists b. split; [exact Hob|]. apply Harr, Hb.
Qed.

(** Assigning in place, into the array of the current matrix. *)
Lemma in_place_keeps (f : list T -> list T) p snapshot o below (s : State T) :
  keeps p snapshot o below s ->
  exists s', Heap.in_place f o s = Return tt s'
             /\ keeps p snapshot o below s' /\ extends s s'.
Proof.
  intros (Hp & Ho & Hst & a & Hoa & Hne & [es Ha]).
  eexists. split; [apply (in_place_run f o a es); assumption|].
  split; [|apply insert_extends].
  repeat split; cbn; try assumption.
  - rewrite lookup_insert_ne by exact Hne. exact Hp.
  - exists a. repeat split; try assumption.
    rewrite lookup_insert_eq. eauto.
Qed.

(** A new array is never the snapshot, and leaves it alone. *)
Lemma alloc_keeps (es : list T) p snapshot o below (s : State T) :
  keeps p snapshot o below s ->
  keeps p snapshot o below (Heap.set_arrays (insert (fresh (dom (arrays s))) es) s)
  /\ fresh (dom (arrays s)) <> p.
Proof.
  intros (Hp & Ho & Hst & b & Hob & Hne & Hb).
  assert (Hap : fresh (dom (arrays s)) <> p).
  { intros Heq. pose proof (alloc_fresh s) as Hf. rewrite Heq in Hf. congruence. }
  split; [|exact Hap].
  repeat split; cbn; try assumption.
  - rewrite lookup_insert_ne by exact Hap. exact Hp.
  - exists b. repeat split; try assumption.
    apply (insert_extends _ es s), Hb.
Qed.

(** Replacing the array of the current matrix by one that is not the
    snapshot. *)
Lemma set_elements_keeps (a : loc) p snapshot o below (s : State T) :
  keeps p snapshot o below s -> a <> p -> is_Some (arrays s !! a) ->
  keeps p snapshot o below (Heap.set_objects (insert o a) s)
  /\ extends s (Heap.set_objects (insert o a) s).
Proof.
  intros (Hp & Ho & Hst & b & Hob & Hne & Hb) Hap Ha.
  split.
  - repeat split; cbn; try assumption.
    exists a. rewrite lookup_insert_eq. auto.
  - split; [auto|].
    intros m (c & Hmc & Hc). unfold live. cbn.
    destruct (decide (o = m)) as [->|Hom].
    + exists a. rewrite lookup_insert_eq. auto.
    + exists c. rewrite lookup_insert_ne by exact Hom. auto.
Qed.
(** Reading the argument of [apply] adds at most a copy. *)
Lemma source_of_Return (arguments : MatrixArgs T) (source : list T) (s s1 : State T) :
  Heap.source_of arguments s = Return source s1 ->
  s1 = s \/ exists es, s1 = Heap.set_arrays (insert (fresh (dom (arrays s))) es) s.
Proof.
  destruct arguments as [[m|a|]|a b c d e f|]; cbn; try discriminate.
  - intros Hs. apply bind_Return in Hs as (a & s2 & Harr & Hr).
    apply read_Return in Hr as [-> _].
    apply bind_Return in Harr as (b & s3 & He & Hsl).
    apply elements_Return in He as [-> _].
    apply bind_Return in Hsl as (es & s4 & Hr & Ha).
    apply read_Return in Hr as [-> _].
    unfold Heap.alloc in Ha. injection Ha as _ <-. right. eauto.
  - intros Hr. apply read_Return in Hr as [-> _]. left. reflexivity.
  - intros [= _ <-]. left. reflexivity.
Qed.

Lemma source_of_keeps (arguments : MatrixArgs T) (source : list T)
    p snapshot o below (s s1 : State T) :
  keeps p snapshot o below s ->
  Heap.source_of arguments s = Return source s1 ->
  keeps p snapshot o below s1 /\ extends s s1.
Proof.
  intros Hk Hs. apply source_of_Return in Hs as [->|[es ->]].
  - split; [exact Hk|apply extends_refl].
  - split; [apply alloc_keeps, Hk|apply insert_extends].
Qed.

Lemma source_of_run (matrix : MatrixArg) (s : State T) :
  accepted s (MApplyMatrix matrix) ->
  exists source s1, Heap.source_of (One matrix) s = Return source s1.
Proof.
  destruct matrix as [m|a|]; cbn.
  - intros (a & Hma & [es Ha]).
    unfold Heap.array.
    erewrite bind_run; [|erewrite bind_run by (apply elements_run, Hma);
                         apply slice_run, Ha].
    eexists _, _. apply read_run. cbn. apply lookup_insert_eq.
  - intros [es Ha]. exists es, s. apply read_run, Ha.
  - intros [].
Qed.

(** [apply] once [source] is known: the product goes to a new array. *)
Lemma apply_keeps (arguments : MatrixArgs T) p snapshot o below (s : State T) :
  keeps p snapshot o below s ->
  (forall s', Heap.apply arguments o s = Return tt s' ->
              keeps p snapshot o below s' /\ extends s s')
  /\ ((exists source s1, Heap.source_of arguments s = Return source s1) ->
      exists s', Heap.apply arguments o s = Return tt s').
Proof.
  intros Hk. unfold Heap.apply.
  destruct (Heap.source_of arguments s) as [source s1|e s1] eqn:Hsrc.
  2:{ split.
      - intros s'. unfold bind. rewrite Hsrc. discriminate.
      - intros (source & s2 & [=]). }
  destruct (source_of_keeps _ _ _ _ _ _ _ _ Hk Hsrc) as [Hk1 Hx1].
  erewrite bind_run by exact Hsrc.
  destruct Hk1 as (Hp & Ho & Hst & a & Hoa & Hne & [es Ha]).
  assert (Hk1 : keeps p snapshot o below s1).
  { repeat split; try assumption. exists a. eauto. }
  erewrite bind_run by (apply elements_run, Hoa).
  erewrite bind_run by (apply read_run, Ha).
  erewrite bind_run by reflexivity.
  set (result := Matrix2D.apply es source).
  set (s2 := Heap.set_arrays (insert (fresh (dom (arrays s1))) result) s1).
  destruct (alloc_keeps result _ _ _ _ _ Hk1) as [Hk2 _]. fold s2 in Hk2.
  erewrite bind_run by (apply (slice_run _ result); cbn; apply lookup_insert_eq).
  set (s3 := Heap.set_arrays (insert (fresh (dom (arrays s2))) result) s2).
  destruct (alloc_keeps result _ _ _ _ _ Hk2) as [Hk3 Hne3]. fold s3 in Hk3.
  assert (Ha3 : is_Some (arrays s3 !! fresh (dom (arrays s2)))).
  { cbn. rewrite lookup_insert_eq. eauto. }
  destruct (set_elements_keeps _ _ _ _ _ _ Hk3 Hne3 Ha3) as [Hk4 Hx4].
  unfold Heap.set_elements, modify.
  split.
  - intros s' [= <-]. split; [exact Hk4|].
    apply (extends_trans s s1); [exact Hx1|].
    apply (extends_trans s1 s2); [apply insert_extends|].
    apply (extends_trans s2 s3); [apply insert_extends|].
    exact Hx4.
  - intros _. eauto.
Qed.
(** An in-place method of the public API, once its check has passed. *)
Lemma in_place_current (f : list T -> list T) p snapshot o below (s : State T) :
  keeps p snapshot o below s ->
  exists s', Heap.in_place f (currMatrix s) s = Return tt s'
             /\ keeps p snapshot o below s' /\ extends s s'.
Proof.
  intros Hk. rewrite (proj1 (proj2 Hk)). apply in_place_keeps, Hk.
Qed.

(** One call between push and pop: if it returns, the snapshot is kept;
    with arguments it accepts, it returns. *)
Lemma mutate_keeps (m : Mutation T) p snapshot o below (s : State T) :
  keeps p snapshot o below s ->
  (forall s', mutate m s = Return tt s' ->
              keeps p snapshot o below s' /\ extends s s')
  /\ (accepted s m -> exists s', mutate m s = Return tt s').
Proof.
  intros Hk.
  destruct m as [angle|arguments|tx ty|matrix]; cbn [mutate accepted].
  - (* rotate *)
    destruct angle as [x|].
    + destruct (in_place_current (Matrix2D.rotate x) _ _ _ _ _ Hk)
        as (s1 & Hrun & Hk1 & Hx1).
      unfold pub.rotate. do 2 (erewrite bind_run by reflexivity).
      unfold Heap.rotate. cbn [to_number]. cbn beta. rewrite Hrun.
      split; [intros s' [= <-]; auto|eauto].
    + split; [discriminate|intros [x [=]]].
  - (* scale *)
    unfold pub.scale.
    destruct (negb (bool_decide (is_Some (mjoin (arguments !! 0%nat))))
              || bool_decide (length arguments = 2%nat)
                 && negb (bool_decide (is_Some (mjoin (arguments !! 1%nat)))))
      eqn:Hcheck.
    + split; [discriminate|].
      intros [Harg0 Harg1]. exfalso.
      apply orb_true_iff in Hcheck as [Hc|Hc].
      * apply negb_true_iff, bool_decide_eq_false in Hc. contradiction.
      * apply andb_true_iff in Hc as [Hlen Hc].
        apply bool_decide_eq_true in Hlen.
        apply negb_true_iff, bool_decide_eq_false in Hc. auto.
    + destruct (in_place_current
                  (Matrix2D.scale (mjoin (arguments !! 0%nat))
                                  (mjoin (arguments !! 1%nat))) _ _ _ _ _ Hk)
        as (s1 & Hrun & Hk1 & Hx1).
      do 2 (erewrite bind_run by reflexivity). unfold Heap.scale. cbn beta. rewrite Hrun.
      split; [intros s' [= <-]; auto|eauto].
  - (* translate *)
    unfold pub.translate.
    destruct tx as [x|], ty as [y|]; cbn [negb orb bool_decide];
      try (split; [discriminate|intros [[? [=]] [? [=]]]]).
    rewrite !bool_decide_eq_true_2 by eauto. cbn [negb orb].
    destruct (in_place_current (Matrix2D.translate x y) _ _ _ _ _ Hk)
      as (s1 & Hrun & Hk1 & Hx1).
    do 2 (erewrite bind_run by reflexivity). unfold Heap.translate. cbn [to_number].
    cbn beta. rewrite Hrun.
    split; [intros s' [= <-]; auto|eauto].
  - (* applyMatrix *)
    unfold pub.applyMatrix. erewrite bind_run by reflexivity.
    rewrite (proj1 (proj2 Hk)).
    destruct (apply_keeps (One matrix) _ _ _ _ _ Hk) as [Hret Hrun].
    split; [exact Hret|].
    intros Hacc. apply Hrun, source_of_run, Hacc.
Qed.

Lemma mutations_keep (ms : list (Mutation T)) p snapshot o below (s : State T) :
  keeps p snapshot o below s ->
  (forall s', mutations ms s = Return tt s' -> keeps p snapshot o below s')
  /\ (Forall (accepted s) ms -> exists s', mutations ms s = Return tt s').
Proof.
  revert s. induction ms as [|m ms IH]; intros s Hk; cbn [mutations].
  - split; [intros s' [= <-]; exact Hk|intros _; exists s; reflexivity].
  - destruct (mutate_keeps m _ _ _ _ _ Hk) as [Hret Hrun]. split.
    + intros s' Hs. apply bind_Return in Hs as ([] & s1 & Hm & Hms).
      apply Hret in Hm as [Hk1 _]. apply (IH s1 Hk1), Hms.
    + intros Hacc. apply Forall_cons in Hacc as [Hm Hms].
      destruct (Hrun Hm) as [s1 Hs1]. destruct (Hret s1 Hs1) as [Hk1 Hx1].
      erewrite bind_run by exact Hs1. apply (IH s1 Hk1).
      eapply Forall_impl; [exact Hms|]. intros m'. apply accepted_extends, Hx1.
Qed.

(** [pushMatrix()] stores a copy: a new array. *)
Lemma pushMatrix_run (s : State T) (a : loc) (es : list T) :
  objects s !! currMatrix s = Some a -> arrays s !! a = Some es ->
  exists s1, pub.pushMatrix s = Return tt s1
             /\ keeps (fresh (dom (arrays s))) es (currMatrix s) (matrixStack s) s1
             /\ extends s s1.
Proof.
  intros Ho Ha. unfold pub.pushMatrix.
  erewrite bind_run by reflexivity. unfold Heap.array.
  erewrite bind_run; [|erewrite bind_run by (apply elements_run, Ho);
                       apply slice_run, Ha].
  eexists. split; [reflexivity|]. split.
  - repeat split; cbn.
    + apply lookup_insert_eq.
    + exists a. split; [exact Ho|]. split.
      * intros ->. rewrite alloc_fresh in Ha. discriminate.
      * apply (insert_extends _ es s). eauto.
  - apply (insert_extends _ es s).
Qed.

(** [popMatrix()] copies the snapshot back and takes it off the stack. *)
Lemma popMatrix_run p snapshot o below (s : State T) :
  keeps p snapshot o below s ->
  exists s', pub.popMatrix s = Return tt s'
             /\ current s' = Some snapshot
             /\ matrixStack s' = below /\ currMatrix s' = o.
Proof.
  intros (Hp & Ho & Hst & _).
  unfold pub.popMatrix. erewrite bind_run by reflexivity.
  rewrite Hst, length_app. cbn [length].
  replace (0 <? length below + 1)%nat with true
    by (symmetry; apply Nat.ltb_lt; lia).
  unfold pub.stack_pop at 1. unfold bind at 1.
  rewrite Hst, last_snoc.
  erewrite bind_run by reflexivity. cbn [currMatrix Heap.set_matrixStack].
  unfold Heap.set_Array.
  erewrite bind_run by (apply (slice_run _ snapshot); exact Hp).
  eexists. split; [reflexivity|]. cbn.
  rewrite Hst, Ho, removelast_last. repeat split.
  unfold current. cbn. rewrite Ho, lookup_insert_eq. cbn. apply lookup_insert_eq.
Qed.
End PushPop.

(** C5. From a state whose current matrix holds the six numbers [es], the
    script [pushMatrix(); <calls>; popMatrix()], with any calls of [rotate],
    [scale], [translate] and [applyMatrix] in between, ends, whenever no
    call raises, with the current matrix holding [es] again (and with the
    stack and the matrix object it started with); and no call raises when
    each gets arguments it accepts. *)
Theorem push_mutations_pop_restores {T : Type} `{Number T} `{Trig T}
    (s : State T) (a : loc) (es : list T) (ms : list (Mutation T)) :
  objects s !! currMatrix s = Some a -> arrays s !! a = Some es ->
  (forall s', scoped ms s = Return tt s' ->
              current s' = Some es
              /\ matrixStack s' = matrixStack s /\ currMatrix s' = currMatrix s)
  /\ (Forall (accepted s) ms -> exists s', scoped ms s = Return tt s').
Proof.
  intros Ho Ha. unfold scoped.
  destruct (pushMatrix_run s a es Ho Ha) as (s1 & Hpush & Hk1 & Hx1).
  erewrite bind_run by exact Hpush.
  destruct (mutations_keep ms _ _ _ _ _ Hk1) as [Hret Hrun]. split.
  - intros s' Hs. apply bind_Return in Hs as ([] & s2 & Hms & Hpop).
    apply Hret in Hms.
    destruct (popMatrix_run _ _ _ _ _ Hms) as (s3 & Hpop' & Hres).
    rewrite Hpop in Hpop'. injection Hpop' as <-. exact Hres.
  - intros Hacc.
    destruct Hrun as [s2 Hs2].
    { eapply Forall_impl; [exact Hacc|]. intros m. apply accepted_extends, Hx1. }
    erewrite bind_run by exact Hs2.
    destruct (popMatrix_run _ _ _ _ _ (Hret s2 Hs2)) as (s3 & Hpop & _).
    eauto.
Qed.

Lemma push_mutations_pop_restores_witness :
  exists s',
    scoped [MRotate (Some 1%R); MScale [Some 2%R]; MTranslate (Some 3%R) (Some 4%R);
            MApplyMatrix (AMatrix 1%positive)]
           (mkState {[2%positive := [1; 0; 0; 0; 1; 0]%R]} {[1%positive := 2%positive]}
                    1%positive [] 0%R 0%R)
    = Return tt s'
    /\ current s' = Some [1; 0; 0; 0; 1; 0]%R.
Proof.
  destruct (push_mutations_pop_restores
              (mkState {[2%positive := [1; 0; 0; 0; 1; 0]%R]} {[1%positive := 2%positive]}
                       1%positive [] 0%R 0%R)
              2%positive [1; 0; 0; 0; 1; 0]%R
              [MRotate (Some 1%R); MScale [Some 2%R]; MTranslate (Some 3%R) (Some 4%R);
               MApplyMatrix (AMatrix 1%positive)]) as [Hret Hrun];
    [reflexivity|reflexivity|].
  destruct Hrun as [s' Hs'].
  - repeat constructor; cbn; eauto; try discriminate.
    exists 2%positive. split; [reflexivity|]. eexists. reflexivity.
  - exists s'. split; [exact Hs'|]. apply (Hret s' Hs').
Defined.

(** ** The facade *)

(** Taking a returned run apart, call by call. *)
Ltac returned :=
  repeat match goal with
         | H : bind _ _ _ = Return _ _ |- _ =>
             apply bind_Return in H as (? & ? & ? & H); cbn beta iota in H
         | H : ret _ _ = Return _ _ |- _ => injection H as <- <-
         | H : gets _ _ = Return _ _ |- _ => injection H as <- <-
         | H : modify _ _ = Return _ _ |- _ => injection H as <- <-
         | H : error _ _ = Return _ _ |- _ => discriminate H
         | H : throw _ _ = Return _ _ |- _ => discriminate H
         | H : (if ?b then _ else _) _ = Return _ _ |- _ => destruct b eqn:?
         end.

(** Running a call forward, down to the calls [transform] makes to itself. *)
Ltac run :=
  unfold Facade.transform_body, bind, gets, ret, modify, error, throw,
    Facade.set_transformPreferences, Facade.pItem_get, Facade.pItem_transform;
  cbn -[Facade.transform].

Ltac host_step Hhost :=
  match goal with
  | |- context [item_transform ?i ?a ?m] =>
      let it' := fresh "it'" in
      let Heq := fresh "Hhost" in
      destruct (Hhost i a m) as [it' Heq]; rewrite Heq; cbn -[Facade.transform]
  end.

Section FacadeRuns.
Context {T : Type} `{Number T} `{Host T}.
Variable env : Env T.

Lemma transform_Return_restores (fuel : nat) :
  forall (type : string) (value : Value T) (s s' : App T) (v : Value T),
    Facade.transform env fuel type value s = Return v s' ->
    transformPreferences s' = mkPrefs true APPLY_TO_CONTENT.
Proof.
  induction fuel as [|fuel IH]; intros type value s s' v Hrun; [discriminate|].
  cbn [Facade.transform] in Hrun. unfold Facade.transform_body in Hrun.
  returned.
  all: try (unfold Facade.set_transformPreferences in * ).
  all: returned.
  all: try reflexivity.
  all: eapply IH; eassumption.
Qed.


Lemma transform_S (n : nat) :
  Facade.transform env (S n) = Facade.transform_body env (Facade.transform env n).
Proof. reflexivity. Qed.

Local Abbreviation restored := (mkPrefs true APPLY_TO_CONTENT).

(** Reading the position: no call to [transform], no change to the item. *)
Lemma position_read (it : PageItem) :
  exists r, forall self prefs,
    Facade.transform_body env self "position" VUndefined (mkApp prefs (Some it)) =
    Return r (mkApp restored (Some it)).
Proof. eexists. intros self prefs. run. reflexivity. Qed.

End FacadeRuns.

(** *** The bound on the calls is never reached *)

Lemma bind_Throw {S A B : Type} (c : M S A) (k : A -> M S B) (s s' : S) (e : Exn) :
  bind c k s = Throw e s' ->
  c s = Throw e s' \/ exists a s1, c s = Return a s1 /\ k a s1 = Throw e s'.
Proof.
  unfold bind. destruct (c s) as [a s1|e1 s1]; intros Hk; [right; eauto|].
  injection Hk as -> ->. left. reflexivity.
Qed.

(** Taking a run that raised apart, down to the call that raised. *)
Ltac thrown :=
  repeat match goal with
         | H : bind _ _ _ = Throw _ _ |- _ =>
             apply bind_Throw in H as [H | (? & ? & ? & H)]; cbn beta iota in H
         | H : ret _ _ = Throw _ _ |- _ => discriminate H
         | H : gets _ _ = Throw _ _ |- _ => discriminate H
         | H : modify _ _ = Throw _ _ |- _ => discriminate H
         | H : error _ _ = Throw OutOfFuel _ |- _ => discriminate H
         | H : Facade.set_transformPreferences _ _ = Throw _ _ |- _ => discriminate H
         | H : Facade.pItem_get _ ?s = Throw OutOfFuel _ |- _ =>
             unfold Facade.pItem_get in H; destruct (pItem s); discriminate H
         | H : Facade.pItem_transform _ _ ?s = Throw OutOfFuel _ |- _ =>
             unfold Facade.pItem_transform in H;
             destruct (pItem s) as [it|]; [destruct (item_transform it _ _)|];
             discriminate H
         | H : (if ?b then _ else _) _ = Throw _ _ |- _ => destruct b eqn:?
         | H : match ?b with Facade.Returned _ => _ | Facade.Fell _ => _ end _ = Throw _ _ |- _ =>
             destruct b
         end.

Section FacadeFuel.
Context {T : Type} `{Number T} `{Host T}.
Variable env : Env T.

(** When a call raises for want of fuel, one of the calls it made did. *)
Lemma transform_body_OutOfFuel self (type : string) (value : Value T) (s s' : App T) :
  Facade.transform_body env self type value s = Throw OutOfFuel s' ->
  (exists s1 s2, self "position" VUndefined s1 = Throw OutOfFuel s2)
  \/ (exists l s1 s2, self "position" (VArray l) s1 = Throw OutOfFuel s2)
  \/ (exists l s1 s2, self "translate" (VArray l) s1 = Throw OutOfFuel s2
                      /\ Facade.isArray value = true).
Proof.
  intros Hrun. unfold Facade.transform_body in Hrun.
  thrown; eauto 10.
Qed.

Lemma position_read_fuel (n : nat) (s s' : App T) :
  Facade.transform env (S n) "position" VUndefined s <> Throw OutOfFuel s'.
Proof.
  intros Hrun. cbn [Facade.transform] in Hrun.
  unfold Facade.transform_body in Hrun. cbn -[Facade.transform] in Hrun.
  thrown.
Qed.

Lemma translate_fuel (n : nat) (value : Value T) (s s' : App T) :
  Facade.transform env (S (S n)) "translate" value s <> Throw OutOfFuel s'.
Proof.
  intros Hrun. cbn [Facade.transform] in Hrun.
  unfold Facade.transform_body at 1 in Hrun. cbn -[Facade.transform_body] in Hrun.
  thrown.
  all: eapply (position_read_fuel n); eassumption.
Qed.

Lemma position_fuel (n : nat) (value : Value T) (s s' : App T) :
  Facade.transform env (S (S (S n))) "position" value s <> Throw OutOfFuel s'.
Proof.
  intros Hrun. rewrite transform_S in Hrun.
  unfold Facade.transform_body in Hrun. cbn -[Facade.transform] in Hrun.
  thrown.
  all: eapply (translate_fuel n); eassumption.
Qed.

Lemma transform_fuel_suffices (type : string) (value : Value T) (s s' : App T) :
  transform env type value s <> Throw OutOfFuel s'.
Proof.
  intros Hrun. unfold transform in Hrun. rewrite transform_S in Hrun.
  apply transform_body_OutOfFuel in Hrun
    as [(s1 & s2 & Hcall) | [(l & s1 & s2 & Hcall) | (l & s1 & s2 & Hcall & _)]].
  - exact (position_read_fuel 2 _ _ Hcall).
  - exact (position_fuel 0 _ _ _ Hcall).
  - exact (translate_fuel 1 _ _ _ Hcall).
Qed.
End FacadeFuel.

(** C3, as stated, fails: a call with a type that is not a transformation
    raises after the preferences were switched, and they stay switched. *)
Lemma transform_raise_leaves_preferences_switched :
  transform Boxes.env "bogus" VUndefined (Boxes.app true APPLY_TO_CONTENT Boxes.box) =
  Throw (BasilError Facade.invalid_transform_type)
    (Boxes.app false ADJUST_SCALING_PERCENTAGE Boxes.box).
Proof. reflexivity. Qed.

(** C3, amended. Every call of [transform] that returns, by the [return]
    at its end or by one of the [return]s inside the branches of [x], [y]
    and [position], leaves [adjustStrokeWeightWhenScaling] true and
    [whenScaling] at [APPLY_TO_CONTENT]. *)
Theorem transform_restores_preferences_on_return {T : Type} `{Number T} `{Host T}
    (env : Env T) (type : string) (value : Value T) (s s' : App T) (v : Value T) :
  transform env type value s = Return v s' ->
  transformPreferences s' = mkPrefs true APPLY_TO_CONTENT.
Proof. apply transform_Return_restores. Qed.

Lemma transform_restores_preferences_on_return_witness :
  exists v s',
    transform Boxes.env "x" (VNumber 50%float)
      (Boxes.app false ADJUST_SCALING_PERCENTAGE Boxes.box)
    = Return v s'
    /\ transformPreferences s' = mkPrefs true APPLY_TO_CONTENT.
Proof.
  exists (VNumber 50%float),
    (Boxes.app true APPLY_TO_CONTENT (Boxes.mkItem [5; 50; 105; 150]%float 0 0 100 100)).
  split; [reflexivity|].
  apply (transform_restores_preferences_on_return Boxes.env "x" (VNumber 50%float)
           (Boxes.app false ADJUST_SCALING_PERCENTAGE Boxes.box) _ (VNumber 50%float)).
  reflexivity.
Defined.

(** *** What a write returns *)

(** A write hands the host one matrix for the item, at the anchor of the
    reference point. What the call does is told by what the host does with
    it. *)
Section FacadeWrites.
Context {T : Type} `{Number T} `{Host T}.
Variable env : Env T.

Local Abbreviation restored := (mkPrefs true APPLY_TO_CONTENT).
Local Abbreviation switched := (mkPrefs false ADJUST_SCALING_PERCENTAGE).
Local Abbreviation aPoint := (Facade.idAnchorPoints (currRefPoint env)).

Lemma translate_outcome (n : nat) (type : string) (l : list T) prefs (it : PageItem) :
  type = "translate" \/ type = "translation" ->
  exists tm,
    (forall it', item_transform it aPoint tm = Some it' ->
       exists r,
         Facade.transform env (S (S n)) type (VArray l) (mkApp prefs (Some it)) =
         Return r (mkApp restored (Some it'))
         /\ forall self prefs',
              Facade.transform_body env self "position" VUndefined (mkApp prefs' (Some it')) =
              Return r (mkApp restored (Some it')))
    /\ (item_transform it aPoint tm = None ->
        Facade.transform env (S (S n)) type (VArray l) (mkApp prefs (Some it)) =
        Throw HostError (mkApp switched (Some it))).
Proof.
  intros [-> | ->]; eexists; split.
  - intros it' Hit'. rewrite transform_S. run. rewrite Hit'. cbn -[Facade.transform].
    destruct (position_read env it') as [r Hr].
    rewrite transform_S, Hr. exists r. split; [reflexivity|exact Hr].
  - intros Hno. rewrite transform_S. run. rewrite Hno. reflexivity.
  - intros it' Hit'. rewrite transform_S. run. rewrite Hit'. cbn -[Facade.transform].
    destruct (position_read env it') as [r Hr].
    rewrite transform_S, Hr. exists r. split; [reflexivity|exact Hr].
  - intros Hno. rewrite transform_S. run. rewrite Hno. reflexivity.
Qed.

Lemma position_outcome (n : nat) (l : list T) prefs (it : PageItem) :
  exists tm,
    (forall it', item_transform it aPoint tm = Some it' ->
       Facade.transform env (S (S (S n))) "position" (VArray l) (mkApp prefs (Some it)) =
       Return (VArray l) (mkApp restored (Some it')))
    /\ (item_transform it aPoint tm = None ->
        Facade.transform env (S (S (S n))) "position" (VArray l) (mkApp prefs (Some it)) =
        Throw HostError (mkApp switched (Some it))).
Proof.
  rewrite transform_S. run.
  match goal with
  | |- context [Facade.transform env _ "translate" (VArray ?o) (mkApp ?p _)] =>
      destruct (translate_outcome n "translate" o p it (or_introl eq_refl))
        as (tm & Hsome & Hnone)
  end.
  exists tm. split.
  - intros it' Hit'. destruct (Hsome it' Hit') as (r & Hrun & _). rewrite Hrun. reflexivity.
  - intros Hno. rewrite (Hnone Hno). reflexivity.
Qed.

Lemma x_or_y_outcome (n : nat) (type : string) (x : T) prefs (it : PageItem) :
  type = "x" \/ type = "y" -> isNumber_num x = true ->
  exists tm,
    (forall it', item_transform it aPoint tm = Some it' ->
       Facade.transform env (S (S (S (S n)))) type (VNumber x) (mkApp prefs (Some it)) =
       Return (VNumber x) (mkApp restored (Some it')))
    /\ (item_transform it aPoint tm = None ->
        Facade.transform env (S (S (S (S n)))) type (VNumber x) (mkApp prefs (Some it)) =
        Throw HostError (mkApp switched (Some it))).
Proof.
  intros [-> | ->] Hx; rewrite transform_S; run; rewrite Hx; cbn -[Facade.transform].
  all: match goal with
       | |- context [Facade.transform env _ "position" (VArray ?o) (mkApp ?p _)] =>
           destruct (position_outcome n o p it) as (tm & Hsome & Hnone)
       end.
  all: exists tm; split; [intros it' Hit'; rewrite (Hsome it' Hit')
                         |intros Hno; rewrite (Hnone Hno)]; reflexivity.
Qed.

Lemma angle_outcome (n : nat) (type : string) (x : T) prefs (it : PageItem) :
  isNumber_num x = true ->
  (type = "rotate" \/ type = "rotation" ->
   exists tm,
     (forall it', item_transform it aPoint tm = Some it' ->
        Facade.transform env (S n) type (VNumber x) (mkApp prefs (Some it)) =
        Return (VNumber (- rotationAngle it')%num) (mkApp restored (Some it')))
     /\ (item_transform it aPoint tm = None ->
         Facade.transform env (S n) type (VNumber x) (mkApp prefs (Some it)) =
         Throw HostError (mkApp switched (Some it))))
  /\ (type = "shear" \/ type = "shearing" ->
      exists tm,
        (forall it', item_transform it aPoint tm = Some it' ->
           Facade.transform env (S n) type (VNumber x) (mkApp prefs (Some it)) =
           Return (VNumber (- shearAngle it')%num) (mkApp restored (Some it')))
        /\ (item_transform it aPoint tm = None ->
            Facade.transform env (S n) type (VNumber x) (mkApp prefs (Some it)) =
            Throw HostError (mkApp switched (Some it)))).
Proof.
  intros Hx. split; intros [-> | ->]; eexists; split.
  all: try (intros it' Hit'; rewrite transform_S; run; rewrite Hx; cbn -[Facade.transform];
            rewrite Hit'; reflexivity).
  all: intros Hno; rewrite transform_S; run; rewrite Hx; cbn -[Facade.transform];
    rewrite Hno; reflexivity.
Qed.

Lemma scale_outcome (n : nat) (type : string) (value : Value T) prefs (it : PageItem) :
  type = "scale" \/ type = "scaling" ->
  Facade.isNumber value = true \/ Facade.isArray value = true ->
  exists tm,
    (forall it', item_transform it aPoint tm = Some it' ->
       Facade.transform env (S n) type value (mkApp prefs (Some it)) =
       Return (VArray [horizontalScale it' / 100; verticalScale it' / 100]%num)
              (mkApp restored (Some it')))
    /\ (item_transform it aPoint tm = None ->
        Facade.transform env (S n) type value (mkApp prefs (Some it)) =
        Throw HostError (mkApp switched (Some it))).
Proof.
  intros Htype [Hv | Hv].
  - destruct Htype as [-> | ->]; eexists; split.
    all: try (intros it' Hit'; rewrite transform_S; run; rewrite Hv; cbn -[Facade.transform];
              rewrite Hit'; reflexivity).
    all: intros Hno; rewrite transform_S; run; rewrite Hv; cbn -[Facade.transform];
      rewrite Hno; reflexivity.
  - assert (Hn : Facade.isNumber value = false) by (destruct value; try discriminate; reflexivity).
    destruct Htype as [-> | ->]; eexists; split.
    all: try (intros it' Hit'; rewrite transform_S; run; rewrite Hn, Hv; cbn -[Facade.transform];
              rewrite Hit'; reflexivity).
    all: intros Hno; rewrite transform_S; run; rewrite Hn, Hv; cbn -[Facade.transform];
      rewrite Hno; reflexivity.
Qed.
End FacadeWrites.

(** C4, as stated, fails. Translating the box at (5, 5) by [10, 0] returns
    the position [15, 5] the box then has, not the argument. *)
Lemma transform_write_results_differ :
  transform Boxes.env "translate" (VArray [10; 0]%float)
    (Boxes.app true APPLY_TO_CONTENT Boxes.box)
  = Return (VArray [15; 5]%float)
      (Boxes.app true APPLY_TO_CONTENT (Boxes.mkItem [5; 15; 105; 115]%float 0 0 100 100)).
Proof. reflexivity. Qed.

(** A write of [width], [height] or [size] leaves [result] null, and the
    call returns its argument where the documentation of [transform] has it
    return the size of the item: setting the width to -50 mirrors the box
    to a width of 50, which is what is read back, and returns -50. *)
Lemma size_writes_return_the_argument :
  transform Boxes.env "width" (VNumber (-50)%float)
    (Boxes.app true APPLY_TO_CONTENT Boxes.box)
  = Return (VNumber (-50)%float)
      (Boxes.app true APPLY_TO_CONTENT
         (Boxes.mkItem [5; 5; 105; -45]%float 0 0 (-50) 100))
  /\ transform Boxes.env "width" VUndefined
       (Boxes.app true APPLY_TO_CONTENT (Boxes.mkItem [5; 5; 105; -45]%float 0 0 (-50) 100))
     = Return (VNumber 50%float)
         (Boxes.app true APPLY_TO_CONTENT
            (Boxes.mkItem [5; 5; 105; -45]%float 0 0 (-50) 100))
  /\ transform Boxes.env "height" (VNumber (-50)%float)
       (Boxes.app true APPLY_TO_CONTENT Boxes.box)
     = Return (VNumber (-50)%float)
         (Boxes.app true APPLY_TO_CONTENT
            (Boxes.mkItem [5; 5; -45; 105]%float 0 0 100 (-50)))
  /\ transform Boxes.env "size" (VArray [-50; -50]%float)
       (Boxes.app true APPLY_TO_CONTENT Boxes.box)
     = Return (VArray [-50; -50]%float)
         (Boxes.app true APPLY_TO_CONTENT
            (Boxes.mkItem [5; 5; -45; -45]%float 0 0 (-50) (-50)))
  /\ transform Boxes.env "size" VUndefined
       (Boxes.app true APPLY_TO_CONTENT (Boxes.mkItem [5; 5; -45; -45]%float 0 0 (-50) (-50)))
     = Return (VArray [50; 50]%float)
         (Boxes.app true APPLY_TO_CONTENT
            (Boxes.mkItem [5; 5; -45; -45]%float 0 0 (-50) (-50))).
Proof. repeat split. Qed.

(** C4, amended. A write on a page item, with a value of the kind its type
    takes, hands the host one matrix [tm] for the item. When the host
    carries it out, the call returns with the preferences restored: for
    [x], [y] and [position] it returns its argument; for [translate] what
    reading the position returns right after it; for [rotate] and [shear]
    the angle the item then has, with its sign changed; for [scale] the two
    scale percentages the item then has, over 100; none of them rounded.
    When the host raises, the call raises the host's error and the
    preferences stay switched. What a write of [width], [height] or [size]
    returns is not part of this statement. *)
Theorem transform_write_returns {T : Type} `{Number T} `{Host T}
    (env : Env T) (prefs : TransformPreferences) (it : PageItem) :
  let restored := mkPrefs true APPLY_TO_CONTENT in
  let switched := mkPrefs false ADJUST_SCALING_PERCENTAGE in
  let aPoint := Facade.idAnchorPoints (currRefPoint env) in
  let outcome (type : string) (value : Value T) (result : PageItem -> Value T -> Prop) :=
    exists tm,
      (forall it', item_transform it aPoint tm = Some it' ->
         exists v, transform env type value (mkApp prefs (Some it)) =
                   Return v (mkApp restored (Some it'))
                   /\ result it' v)
      /\ (item_transform it aPoint tm = None ->
          transform env type value (mkApp prefs (Some it)) =
          Throw HostError (mkApp switched (Some it))) in
  (forall (x : T) (type : string),
     isNumber_num x = true -> type ∈ ["x"; "y"] ->
     outcome type (VNumber x) (fun _ v => v = VNumber x))
  /\ (forall l : list T,
        outcome "position" (VArray l) (fun _ v => v = VArray l))
  /\ (forall (l : list T) (type : string),
        type ∈ ["translate"; "translation"] ->
        outcome type (VArray l)
          (fun it' v => transform env "position" VUndefined (mkApp restored (Some it'))
                        = Return v (mkApp restored (Some it'))))
  /\ (forall (x : T) (type : string),
        isNumber_num x = true -> type ∈ ["rotate"; "rotation"] ->
        outcome type (VNumber x) (fun it' v => v = VNumber (- rotationAngle it')%num))
  /\ (forall (x : T) (type : string),
        isNumber_num x = true -> type ∈ ["shear"; "shearing"] ->
        outcome type (VNumber x) (fun it' v => v = VNumber (- shearAngle it')%num))
  /\ (forall (value : Value T) (type : string),
        Facade.isNumber value = true \/ Facade.isArray value = true ->
        type ∈ ["scale"; "scaling"] ->
        outcome type value
          (fun it' v => v = VArray [horizontalScale it' / 100;
                                    verticalScale it' / 100]%num)).
Proof.
  intros restored switched aPoint outcome. unfold outcome, transform.
  assert (Hpair : forall (type a b : string), type ∈ [a; b] -> type = a \/ type = b).
  { intros type a b Hin. apply elem_of_cons in Hin as [->|Hin]; [auto|].
    apply elem_of_cons in Hin as [->|Hin]; [auto|]. apply elem_of_nil in Hin as []. }
  repeat split.
  - intros x type Hx Htype%Hpair.
    destruct (x_or_y_outcome env 0 type x prefs it Htype Hx) as (tm & Hsome & Hnone).
    exists tm. split; [|exact Hnone]. intros it' Hit'. eauto.
  - intros l.
    destruct (position_outcome env 1 l prefs it) as (tm & Hsome & Hnone).
    exists tm. split; [|exact Hnone]. intros it' Hit'. eauto.
  - intros l type Htype%Hpair.
    destruct (translate_outcome env 2 type l prefs it Htype) as (tm & Hsome & Hnone).
    exists tm. split; [|exact Hnone]. intros it' Hit'.
    destruct (Hsome it' Hit') as (r & Hrun & Hread). exists r. split; [exact Hrun|].
    rewrite transform_S. apply Hread.
  - intros x type Hx Htype%Hpair.
    destruct (proj1 (angle_outcome env 3 type x prefs it Hx) Htype) as (tm & Hsome & Hnone).
    exists tm. split; [|exact Hnone]. intros it' Hit'. eauto.
  - intros x type Hx Htype%Hpair.
    destruct (proj2 (angle_outcome env 3 type x prefs it Hx) Htype) as (tm & Hsome & Hnone).
    exists tm. split; [|exact Hnone]. intros it' Hit'. eauto.
  - intros value type Hvalue Htype%Hpair.
    destruct (scale_outcome env 3 type value prefs it Htype Hvalue) as (tm & Hsome & Hnone).
    exists tm. split; [|exact Hnone]. intros it' Hit'. eauto.
Qed.

(** The host of boxes never raises. *)
Lemma boxes_host_returns (it : Boxes.Item) (a : AnchorPoint) (tm : Boxes.Matrix) :
  is_Some (Boxes.transformed it a tm).
Proof. unfold Boxes.transformed. destruct tm; eauto. Qed.

Lemma transform_write_returns_witness :
  (exists it', transform Boxes.env "x" (VNumber 50%float)
                 (Boxes.app true APPLY_TO_CONTENT Boxes.box)
               = Return (VNumber 50%float) (Boxes.app true APPLY_TO_CONTENT it'))
  /\ (exists it', transform Boxes.env "rotate" (VNumber 30%float)
                    (Boxes.app true APPLY_TO_CONTENT Boxes.box)
                  = Return (VNumber (- Boxes.rotation it')%float)
                           (Boxes.app true APPLY_TO_CONTENT it')).
Proof.
  destruct (transform_write_returns Boxes.env (mkPrefs true APPLY_TO_CONTENT) Boxes.box)
    as (Hecho & _ & _ & Hangle & _).
  split.
  - destruct (Hecho 50%float "x") as (tm & Hsome & _);
      [reflexivity|apply list_elem_of_here|].
    destruct (boxes_host_returns Boxes.box TOP_LEFT_ANCHOR tm) as [it' Hit'].
    destruct (Hsome it' Hit') as (v & Hrun & ->). exists it'. exact Hrun.
  - destruct (Hangle 30%float "rotate") as (tm & Hsome & _);
      [reflexivity|apply list_elem_of_here|].
    destruct (boxes_host_returns Boxes.box TOP_LEFT_ANCHOR tm) as [it' Hit'].
    destruct (Hsome it' Hit') as (v & Hrun & ->). exists it'. exact Hrun.
Defined.


(** * More of the code *)

(** ** Matrix2D over the reals: how the methods compose *)

Lemma preApply_six (m0 m1 m2 m3 m4 m5 s0 s1 s2 s3 s4 s5 : R) :
  Matrix2D.preApply [m0; m1; m2; m3; m4; m5] [s0; s1; s2; s3; s4; s5] =
  [(m0 * s0 + m3 * s1)%R; (m1 * s0 + m4 * s1)%R; (s2 + m2 * s0 + m5 * s1)%R;
   (m0 * s3 + m3 * s4)%R; (m1 * s3 + m4 * s4)%R; (s5 + m2 * s3 + m5 * s4)%R].
Proof. reflexivity. Qed.

(** X1. [M.preApply(S)] leaves in M the composition in the other order
    than [apply]: a point is mapped by the old M first and by S after. *)
Theorem preApply_is_composition (M S : list R) (p : Point R) :
  length M = 6%nat -> length S = 6%nat -> two_coordinates p ->
  Matrix2D.mult (Matrix2D.preApply M S) p None =
  Matrix2D.mult S (Matrix2D.mult M p None) None.
Proof.
  intros HM HS Hp. six. rewrite preApply_six.
  destruct p as [x y z|l].
  - rewrite !mult_six_vector. cbn. f_equal; ring.
  - cbn in Hp. do 2 (destruct l as [|? l]; [discriminate Hp|]).
    destruct l; [|discriminate Hp].
    rewrite !mult_six_array. cbn. f_equal. by_entries.
Qed.

Lemma preApply_is_composition_witness :
  Matrix2D.mult (Matrix2D.preApply [2; 0; 1; 0; 3; 1]%R [1; 0; 4; 0; 1; 5]%R)
    (PArray [1; 2]%R) None =
  Matrix2D.mult [1; 0; 4; 0; 1; 5]%R
    (Matrix2D.mult [2; 0; 1; 0; 3; 1]%R (PArray [1; 2]%R) None) None.
Proof. apply preApply_is_composition; reflexivity. Defined.

(** X2. The matrix of [reset] is neutral for [apply] and for [preApply],
    on either side. *)
Theorem reset_is_neutral (M : list R) :
  length M = 6%nat ->
  Matrix2D.apply M Matrix2D.reset = M
  /\ Matrix2D.apply Matrix2D.reset M = M
  /\ Matrix2D.preApply M Matrix2D.reset = M
  /\ Matrix2D.preApply Matrix2D.reset M = M.
Proof.
  intros HM. six. unfold Matrix2D.reset.
  rewrite !apply_six. cbn [lit Number_R]. rewrite !preApply_six.
  repeat split; by_entries.
Qed.

Lemma reset_is_neutral_witness :
  Matrix2D.apply [2; 0; 1; 0; 3; 1]%R Matrix2D.reset = [2; 0; 1; 0; 3; 1]%R
  /\ Matrix2D.apply Matrix2D.reset [2; 0; 1; 0; 3; 1]%R = [2; 0; 1; 0; 3; 1]%R
  /\ Matrix2D.preApply [2; 0; 1; 0; 3; 1]%R Matrix2D.reset = [2; 0; 1; 0; 3; 1]%R
  /\ Matrix2D.preApply Matrix2D.reset [2; 0; 1; 0; 3; 1]%R = [2; 0; 1; 0; 3; 1]%R.
Proof. apply reset_is_neutral. reflexivity. Defined.

Lemma translate_six {T : Type} `{Number T} (tx ty m0 m1 m2 m3 m4 m5 : T) :
  Matrix2D.translate tx ty [m0; m1; m2; m3; m4; m5] =
  [m0; m1; (tx * m0 + ty * m1 + m2)%num; m3; m4; (tx * m3 + ty * m4 + m5)%num].
Proof. reflexivity. Qed.

Lemma truthy_R (x : R) : x <> 0%R -> to_boolean (Some x) = true.
Proof. intros Hx. cbn. destruct (Req_dec_T x 0); [contradiction|reflexivity]. Qed.

Lemma scale_six (sx sy m0 m1 m2 m3 m4 m5 : R) :
  sx <> 0%R -> sy <> 0%R ->
  Matrix2D.scale (Some sx) (Some sy) [m0; m1; m2; m3; m4; m5] =
  [(m0 * sx)%R; (m1 * sy)%R; m2; (m3 * sx)%R; (m4 * sy)%R; m5].
Proof.
  intros Hx Hy. unfold Matrix2D.scale.
  rewrite (truthy_R sx Hx), (truthy_R sy Hy). cbn [negb andb].
  rewrite (truthy_R sy Hy). reflexivity.
Qed.

(** X3. [translate(tx, ty)] leaves what [apply] leaves with the translation
    matrix [1, 0, tx, 0, 1, ty], and [invTranslate(tx, ty)] takes it back,
    in either order. *)
Theorem translate_is_apply_translation (tx ty : R) (M : list R) :
  length M = 6%nat ->
  Matrix2D.translate tx ty M = Matrix2D.apply M [1; 0; tx; 0; 1; ty]%R
  /\ Matrix2D.invTranslate tx ty (Matrix2D.translate tx ty M) = M
  /\ Matrix2D.translate tx ty (Matrix2D.invTranslate tx ty M) = M.
Proof.
  intros HM. six. unfold Matrix2D.invTranslate.
  rewrite !translate_six, apply_six. repeat split; by_entries.
Qed.

Lemma translate_is_apply_translation_witness :
  Matrix2D.translate 7%R 8%R [2; 0; 1; 0; 3; 1]%R
  = Matrix2D.apply [2; 0; 1; 0; 3; 1]%R [1; 0; 7; 0; 1; 8]%R
  /\ Matrix2D.invTranslate 7%R 8%R (Matrix2D.translate 7%R 8%R [2; 0; 1; 0; 3; 1]%R)
     = [2; 0; 1; 0; 3; 1]%R
  /\ Matrix2D.translate 7%R 8%R (Matrix2D.invTranslate 7%R 8%R [2; 0; 1; 0; 3; 1]%R)
     = [2; 0; 1; 0; 3; 1]%R.
Proof. apply (translate_is_apply_translation 7 8). reflexivity. Defined.

Lemma scale_default_six (sx m0 m1 m2 m3 m4 m5 : R) (sy : option R) :
  sx <> 0%R -> to_boolean sy = false ->
  Matrix2D.scale (Some sx) sy [m0; m1; m2; m3; m4; m5] =
  [(m0 * sx)%R; (m1 * sx)%R; m2; (m3 * sx)%R; (m4 * sx)%R; m5].
Proof.
  intros Hx Hy. unfold Matrix2D.scale.
  rewrite (truthy_R sx Hx), Hy. cbn [negb andb].
  rewrite (truthy_R sx Hx). reflexivity.
Qed.

(** X4. With a factor [sx] that is not zero, [scale(sx, sy)] leaves what
    [apply] leaves with the scaling matrix [sx, 0, 0, 0, sy, 0]; a factor
    [sy] that is zero or left out is replaced by [sx], so that [scale(sx, 0)]
    scales both axes by [sx]. *)
Theorem scale_is_apply_scaling (sx sy : R) (M : list R) :
  length M = 6%nat -> sx <> 0%R ->
  (sy <> 0%R ->
   Matrix2D.scale (Some sx) (Some sy) M = Matrix2D.apply M [sx; 0; 0; 0; sy; 0]%R)
  /\ Matrix2D.scale (Some sx) None M = Matrix2D.apply M [sx; 0; 0; 0; sx; 0]%R
  /\ Matrix2D.scale (Some sx) (Some 0%R) M = Matrix2D.apply M [sx; 0; 0; 0; sx; 0]%R.
Proof.
  intros HM Hx. six. repeat split.
  - intros Hy. rewrite scale_six, apply_six by assumption. by_entries.
  - rewrite scale_default_six, apply_six by (auto using Hx). by_entries.
  - rewrite scale_default_six, apply_six by (auto using Hx; apply falsy_R; reflexivity).
    by_entries.
Qed.

Lemma scale_is_apply_scaling_witness :
  Matrix2D.scale (Some 2%R) (Some 0%R) [2; 0; 1; 0; 3; 1]%R
  = Matrix2D.apply [2; 0; 1; 0; 3; 1]%R [2; 0; 0; 0; 2; 0]%R.
Proof.
  apply (scale_is_apply_scaling 2 5 [2; 0; 1; 0; 3; 1]%R); [reflexivity|lra].
Defined.

(** X5. The determinant of what [apply] leaves is the product of the two
    determinants. *)
Theorem determinant_of_apply (M S : list R) :
  length M = 6%nat -> length S = 6%nat ->
  Matrix2D.determinant (Matrix2D.apply M S) =
  (Matrix2D.determinant M * Matrix2D.determinant S)%R.
Proof.
  intros HM HS. six. rewrite apply_six, !determinant_six. cbn. ring.
Qed.

Lemma determinant_of_apply_witness :
  Matrix2D.determinant (Matrix2D.apply [2; 0; 1; 0; 3; 1]%R [1; 0; 4; 0; 1; 5]%R) =
  (Matrix2D.determinant [2; 0; 1; 0; 3; 1]%R * Matrix2D.determinant [1; 0; 4; 0; 1; 5]%R)%R.
Proof. apply determinant_of_apply; reflexivity. Defined.

Lemma invert_six_R (m0 m1 m2 m3 m4 m5 : R) :
  Matrix2D.invert [m0; m1; m2; m3; m4; m5] =
  (true, [m4 / (m0 * m4 - m1 * m3); - m1 / (m0 * m4 - m1 * m3);
          (m1 * m5 - m4 * m2) / (m0 * m4 - m1 * m3);
          - m3 / (m0 * m4 - m1 * m3); m0 / (m0 * m4 - m1 * m3);
          (m3 * m2 - m0 * m5) / (m0 * m4 - m1 * m3)]%R).
Proof.
  erewrite invert_six by reflexivity. rewrite invert_guard_R. reflexivity.
Qed.

(** X6. Inverting twice gives the matrix back: for a determinant that is
    not zero, the matrix [invert] leaves has the inverse determinant, and
    [invert] on it leaves the original elements. *)
Theorem invert_twice (M : list R) :
  length M = 6%nat -> Matrix2D.determinant M <> 0%R ->
  Matrix2D.determinant (snd (Matrix2D.invert M)) = (/ Matrix2D.determinant M)%R
  /\ snd (Matrix2D.invert (snd (Matrix2D.invert M))) = M.
Proof.
  intros HM Hd. six. rewrite determinant_six in *.
  rewrite invert_six_R. cbn [snd]. rewrite invert_six_R. cbn [snd].
  rewrite determinant_six. split; [field; exact Hd|].
  repeat (apply (f_equal2 cons)); try reflexivity; field; exact Hd.
Qed.

Lemma invert_twice_witness :
  Matrix2D.determinant (snd (Matrix2D.invert [2; 0; 1; 0; 3; 1]%R))
  = (/ Matrix2D.determinant [2; 0; 1; 0; 3; 1]%R)%R
  /\ snd (Matrix2D.invert (snd (Matrix2D.invert [2; 0; 1; 0; 3; 1]%R)))
     = [2; 0; 1; 0; 3; 1]%R.
Proof.
  apply invert_twice; [reflexivity|]. rewrite determinant_six. lra.
Defined.

(** X7. With factors that are not zero, [invScale(sx, sy)] takes back what
    [scale(sx, sy)] did, in either order. *)
Theorem invScale_undoes_scale (sx sy : R) (M : list R) :
  length M = 6%nat -> sx <> 0%R -> sy <> 0%R ->
  Matrix2D.invScale (Some sx) (Some sy) (Matrix2D.scale (Some sx) (Some sy) M) = M
  /\ Matrix2D.scale (Some sx) (Some sy) (Matrix2D.invScale (Some sx) (Some sy) M) = M.
Proof.
  intros HM Hx Hy. six. unfold Matrix2D.invScale.
  rewrite (truthy_R sx Hx), (truthy_R sy Hy). cbn [negb andb to_number].
  assert (Hix : (1 / sx)%R <> 0%R).
  { unfold Rdiv. rewrite Rmult_1_l. apply Rinv_neq_0_compat, Hx. }
  assert (Hiy : (1 / sy)%R <> 0%R).
  { unfold Rdiv. rewrite Rmult_1_l. apply Rinv_neq_0_compat, Hy. }
  split.
  - rewrite (scale_six sx sy) by assumption.
    change (1 / sx)%num with (1 / sx)%R. change (1 / sy)%num with (1 / sy)%R.
    rewrite scale_six by assumption.
    repeat (apply (f_equal2 cons)); try reflexivity; field; assumption.
  - change (1 / sx)%num with (1 / sx)%R. change (1 / sy)%num with (1 / sy)%R.
    rewrite (scale_six (1 / sx) (1 / sy)) by assumption.
    rewrite scale_six by assumption.
    repeat (apply (f_equal2 cons)); try reflexivity; field; assumption.
Qed.

Lemma invScale_undoes_scale_witness :
  Matrix2D.invScale (Some 2%R) (Some 4%R)
    (Matrix2D.scale (Some 2%R) (Some 4%R) [2; 0; 1; 0; 3; 1]%R) = [2; 0; 1; 0; 3; 1]%R
  /\ Matrix2D.scale (Some 2%R) (Some 4%R)
       (Matrix2D.invScale (Some 2%R) (Some 4%R) [2; 0; 1; 0; 3; 1]%R) = [2; 0; 1; 0; 3; 1]%R.
Proof. apply invScale_undoes_scale; [reflexivity|lra|lra]. Defined.

(** X8. [multX] and [multY] are the two coordinates of [mult]. *)
Theorem multX_multY_are_mult (M : list R) (x y : R) :
  length M = 6%nat ->
  Matrix2D.mult M (PArray [x; y]) None =
  PArray [Matrix2D.multX M x y; Matrix2D.multY M x y].
Proof.
  intros HM. six. rewrite mult_six_array. f_equal.
  unfold Matrix2D.multX, Matrix2D.multY. by_entries.
Qed.

Lemma multX_multY_are_mult_witness :
  Matrix2D.mult [2; 0; 1; 0; 3; 1]%R (PArray [5; 6]%R) None =
  PArray [Matrix2D.multX [2; 0; 1; 0; 3; 1]%R 5%R 6%R;
          Matrix2D.multY [2; 0; 1; 0; 3; 1]%R 5%R 6%R].
Proof. apply multX_multY_are_mult. reflexivity. Defined.

(** The entries of a rotated matrix whose squares of sine and cosine were
    collected. *)
Ltac by_pythagoras angle :=
  repeat (apply (f_equal2 cons)); try reflexivity; cbn;
  repeat match goal with
         | |- ?l = ?r =>
             transitivity (r * (Rtrigo_def.sin angle * Rtrigo_def.sin angle
                                + Rtrigo_def.cos angle * Rtrigo_def.cos angle))%R;
             [ring|
              let Hsc := fresh "Hsc" in
              pose proof (sin2_cos2 angle) as Hsc; unfold Rsqr in Hsc;
              rewrite Hsc; ring]
         end.

(** X9. A rotation keeps the determinant, and [rotate] by the opposite
    angle takes a rotation back. *)
Theorem rotate_keeps_determinant (angle : R) (M : list R) :
  length M = 6%nat ->
  Matrix2D.determinant (Matrix2D.rotate angle M) = Matrix2D.determinant M
  /\ Matrix2D.rotate (- angle)%R (Matrix2D.rotate angle M) = M.
Proof.
  intros HM. six. rewrite !rotate_six. split.
  - rewrite !determinant_six. cbn.
    match goal with
    | |- ?l = ?r =>
        transitivity (r * (Rtrigo_def.sin angle * Rtrigo_def.sin angle
                           + Rtrigo_def.cos angle * Rtrigo_def.cos angle))%R; [ring|]
    end.
    pose proof (sin2_cos2 angle) as Hsc. unfold Rsqr in Hsc. rewrite Hsc. ring.
  - cbn [cos sin Trig_R]. rewrite cos_neg, sin_neg. by_pythagoras angle.
Qed.

Lemma rotate_keeps_determinant_witness :
  Matrix2D.determinant (Matrix2D.rotate 1%R [2; 0; 1; 0; 3; 1]%R)
  = Matrix2D.determinant [2; 0; 1; 0; 3; 1]%R
  /\ Matrix2D.rotate (- 1)%R (Matrix2D.rotate 1%R [2; 0; 1; 0; 3; 1]%R)
     = [2; 0; 1; 0; 3; 1]%R.
Proof. apply (rotate_keeps_determinant 1). reflexivity. Defined.



(** X11. [adobeMatrix(x, y)] hands over the four linear entries of the
    matrix, column by column, and as translation the displacement of the
    point (x, y) under the matrix: its image minus the point itself. *)
Theorem adobeMatrix_is_displacement (as_pt : R -> R) (x y : R) (M : list R) :
  length M = 6%nat ->
  Matrix2D.adobeMatrix as_pt (Some x) (Some y) M =
  [M.[0]; M.[3]; M.[1]; M.[4];
   as_pt (Matrix2D.multX M x y - x)%R; as_pt (Matrix2D.multY M x y - y)%R].
Proof.
  intros HM. six. unfold Matrix2D.adobeMatrix. cbn [to_number].
  change (- x)%num with (- x)%R. change (- y)%num with (- y)%R.
  rewrite preApply_six, apply_six.
  unfold Matrix2D.multX, Matrix2D.multY.
  repeat (apply (f_equal2 cons)); try reflexivity; cbn; try ring; f_equal; ring.
Qed.

Lemma adobeMatrix_is_displacement_witness :
  Matrix2D.adobeMatrix (fun v => (v * 2)%R) (Some 3%R) (Some 4%R) [2; 0; 1; 0; 3; 1]%R =
  [[2; 0; 1; 0; 3; 1]%R.[0]; [2; 0; 1; 0; 3; 1]%R.[3];
   [2; 0; 1; 0; 3; 1]%R.[1]; [2; 0; 1; 0; 3; 1]%R.[4];
   ((Matrix2D.multX [2; 0; 1; 0; 3; 1]%R 3%R 4%R - 3) * 2)%R;
   ((Matrix2D.multY [2; 0; 1; 0; 3; 1]%R 3%R 4%R - 4) * 2)%R].
Proof.
  apply (adobeMatrix_is_displacement (fun v => (v * 2)%R) 3 4). reflexivity.
Defined.

(** ** Matrix2D on binary64: a missing argument *)

Lemma add_nan (a : float) : (a + nan)%float = nan.
Proof.
  rewrite <- (SF2Prim_Prim2SF (a + nan)), add_spec.
  change (Prim2SF nan) with S754_nan. destruct (Prim2SF a); reflexivity.
Qed.

Lemma mul_nan (a : float) : (a * nan)%float = nan.
Proof.
  rewrite <- (SF2Prim_Prim2SF (a * nan)), mul_spec.
  change (Prim2SF nan) with S754_nan. destruct (Prim2SF a); reflexivity.
Qed.

(** The third and the sixth entry of what [apply] leaves, for arrays of
    any length. *)
Lemma apply_translation_entries {T : Type} `{Number T} (this source : list T) :
  (Matrix2D.apply this source).[2] =
    (this.[2] + (this.[0] * source.[2] + this.[1] * source.[5]))%num
  /\ (Matrix2D.apply this source).[5] =
    (this.[5] + (this.[3] * source.[2] + this.[4] * source.[5]))%num.
Proof. split; reflexivity. Qed.

(** X12. [adobeMatrix()] called without coordinates, as [image()] calls it,
    hands over NaN for both entries of the translation, whatever the
    matrix holds. *)
Theorem adobeMatrix_without_coordinates (as_pt : float -> float) (M : list float) :
  exists a b c d,
    Matrix2D.adobeMatrix as_pt None None M = [a; b; c; d; as_pt nan; as_pt nan].
Proof.
  unfold Matrix2D.adobeMatrix. cbn [to_number undef Number_float].
  eexists _, _, _, _. repeat (apply (f_equal2 cons)); try reflexivity; f_equal.
  - rewrite (proj1 (apply_translation_entries _ _)).
    change ([1; 0; nan; 0; 1; nan]%num.[2]) with nan.
    change ([1; 0; nan; 0; 1; nan]%num.[5]) with nan.
    cbn [add mul Number_float]. rewrite !mul_nan, !add_nan. reflexivity.
  - rewrite (proj2 (apply_translation_entries _ _)).
    change ([1; 0; nan; 0; 1; nan]%num.[2]) with nan.
    change ([1; 0; nan; 0; 1; nan]%num.[5]) with nan.
    cbn [add mul Number_float]. rewrite !mul_nan, !add_nan. reflexivity.
Qed.

(** ** Matrix2D objects in the store: copies and aliases *)

Section Copies.
Context {T : Type} `{Number T}.

Lemma new_Matrix2D_run (s : State T) :
  let a1 := fresh (dom (arrays s)) in
  let a2 := fresh (dom (<[a1 := Matrix2D.reset]> (arrays s))) in
  Heap.new_Matrix2D s =
  Return (fresh (dom (objects s)))
    (Heap.set_objects (insert (fresh (dom (objects s))) a2)
       (Heap.set_arrays (insert a2 Matrix2D.reset)
          (Heap.set_arrays (insert a1 Matrix2D.reset) s))).
Proof.
  intros a1 a2. unfold Heap.new_Matrix2D, Heap.reset.
  erewrite bind_run by reflexivity. unfold Heap.set_Array.
  erewrite bind_run by (apply (slice_run _ Matrix2D.reset); cbn; apply lookup_insert_eq).
  reflexivity.
Qed.

(** X13. [get()] returns a new Matrix2D object with the same numbers in an
    array of its own: assigning into the copy leaves the original as it
    was, and assigning into the original leaves the copy. *)
Theorem get_is_a_copy (s : State T) (this a : loc) (es : list T) :
  objects s !! this = Some a -> arrays s !! a = Some es ->
  exists o s',
    Heap.get this s = Return o s'
    /\ objects s !! o = None
    /\ contents s' o = Some es /\ contents s' this = Some es
    /\ (forall f, exists s'', Heap.in_place f o s' = Return tt s''
                              /\ contents s'' o = Some (f es)
                              /\ contents s'' this = Some es)
    /\ (forall f, exists s'', Heap.in_place f this s' = Return tt s''
                              /\ contents s'' this = Some (f es)
                              /\ contents s'' o = Some es).
Proof.
  intros Ho Ha. unfold Heap.get.
  erewrite bind_run by apply new_Matrix2D_run.
  set (o := fresh (dom (objects s))).
  set (a1 := fresh (dom (arrays s))).
  set (a2 := fresh (dom (<[a1 := Matrix2D.reset]> (arrays s)))).
  assert (Hoo : o <> this).
  { intros Heq. pose proof (is_fresh (dom (objects s))) as Hf. fold o in Hf.
    rewrite Heq in Hf. apply Hf, elem_of_dom. eauto. }
  assert (Ha1 : a1 <> a).
  { intros Heq. pose proof (alloc_fresh s) as Hf. fold a1 in Hf. congruence. }
  assert (Ha2 : a2 <> a).
  { intros Heq. pose proof (is_fresh (dom (<[a1 := Matrix2D.reset]> (arrays s)))) as Hf.
    fold a2 in Hf. rewrite Heq in Hf. apply Hf, elem_of_dom.
    rewrite lookup_insert_ne by exact Ha1. eauto. }
  erewrite bind_run by reflexivity.
  cbn [objects Heap.set_objects Heap.set_arrays].
  rewrite lookup_insert_ne by exact Hoo. rewrite Ho.
  unfold Heap.set_Array.
  erewrite bind_run.
  2:{ erewrite bind_run.
      2:{ apply (slice_run _ es). cbn.
          rewrite lookup_insert_ne by exact Ha2.
          rewrite lookup_insert_ne by exact Ha1. exact Ha. }
      reflexivity. }
  cbn [arrays Heap.set_arrays Heap.set_objects].
  set (arrs2 := <[a2 := Matrix2D.reset]> (<[a1 := Matrix2D.reset]> (arrays s))).
  set (a3 := fresh (dom arrs2)).
  assert (Ha3 : a3 <> a).
  { intros Heq. pose proof (is_fresh (dom arrs2)) as Hf. fold a3 in Hf.
    rewrite Heq in Hf. apply Hf, elem_of_dom. unfold arrs2.
    rewrite lookup_insert_ne by exact Ha2.
    rewrite lookup_insert_ne by exact Ha1. eauto. }
  assert (Hathis : <[a3 := es]> arrs2 !! a = Some es).
  { rewrite lookup_insert_ne by exact Ha3. unfold arrs2.
    rewrite lookup_insert_ne by exact Ha2.
    rewrite lookup_insert_ne by exact Ha1. exact Ha. }
  eexists o, _. split; [reflexivity|].
  split; [apply not_elem_of_dom, is_fresh|].
  unfold contents. cbn.
  rewrite !lookup_insert_eq. cbn. rewrite lookup_insert_eq.
  rewrite !(lookup_insert_ne _ o this) by exact Hoo. rewrite Ho. cbn.
  split; [reflexivity|]. split; [exact Hathis|]. split.
  - intros f. eexists. split.
    + apply (in_place_run f o a3 es); cbn; apply lookup_insert_eq.
    + cbn. rewrite !lookup_insert_eq. cbn. rewrite lookup_insert_eq.
      rewrite !(lookup_insert_ne _ o this) by exact Hoo. rewrite Ho. cbn.
      split; [reflexivity|]. rewrite lookup_insert_ne by exact Ha3. exact Hathis.
  - intros f. eexists. split.
    + apply (in_place_run f this a es); cbn.
      * rewrite !(lookup_insert_ne _ o this) by exact Hoo. exact Ho.
      * exact Hathis.
    + cbn. rewrite !lookup_insert_eq. cbn.
      rewrite !(lookup_insert_ne _ o this) by exact Hoo. rewrite Ho. cbn.
      rewrite lookup_insert_eq.
      split; [reflexivity|].
      rewrite lookup_insert_ne by (intros Heq; apply Ha3; symmetry; exact Heq).
      apply lookup_insert_eq.
Qed.
End Copies.

Section PublicMatrix.
Context {T : Type} `{Number T}.

(** X14. [matrix(m)] keeps the object it is given, not a copy: it returns
    that object, and a [translate] after it assigns into the array of the
    caller's own matrix. *)
Theorem matrix_keeps_the_object (s : State T) (o a : loc) (es : list T) (tx ty : T) :
  objects s !! o = Some a -> arrays s !! a = Some es ->
  exists s1 s2,
    pub.matrix (Some o) s = Return o s1
    /\ pub.translate (Some tx) (Some ty) s1 = Return tt s2
    /\ objects s2 !! o = Some a
    /\ arrays s2 !! a = Some (Matrix2D.translate tx ty es).
Proof.
  intros Ho Ha. eexists _, _. split; [reflexivity|]. split.
  - unfold pub.translate. cbn [is_Some bool_decide].
    rewrite !bool_decide_eq_true_2 by eauto. cbn [negb orb].
    do 2 (erewrite bind_run by reflexivity). unfold Heap.translate.
    apply (in_place_run _ o a es); assumption.
  - cbn. split; [exact Ho|apply lookup_insert_eq].
Qed.

(** X15. [applyMatrix(m)] with a Matrix2D leaves in the current matrix the
    product of [apply] in a new array: the array it had and the array of
    [m] keep their numbers, also when [m] is the current matrix itself. *)
Theorem applyMatrix_multiplies (s : State T) (m a b : loc) (es em : list T) :
  objects s !! currMatrix s = Some a -> arrays s !! a = Some es ->
  objects s !! m = Some b -> arrays s !! b = Some em ->
  exists s',
    pub.applyMatrix (AMatrix m) s = Return tt s'
    /\ current s' = Some (Matrix2D.apply es em)
    /\ arrays s' !! a = Some es /\ arrays s' !! b = Some em
    /\ currMatrix s' = currMatrix s /\ matrixStack s' = matrixStack s.
Proof.
  intros Ho Ha Hm Hb. unfold pub.applyMatrix, Heap.apply.
  erewrite bind_run by reflexivity. cbn [Heap.source_of]. unfold Heap.array.
  set (a1 := fresh (dom (arrays s))).
  assert (Hfresh : forall (arrs : gmap loc (list T)) (c : loc) (v : list T),
            arrs !! c = Some v -> fresh (dom arrs) <> c).
  { intros arrs c v Hc Heq. pose proof (is_fresh (dom arrs)) as Hf.
    rewrite Heq in Hf. apply Hf, elem_of_dom. eauto. }
  erewrite bind_run.
  2:{ erewrite bind_run.
      2:{ erewrite bind_run by (apply elements_run, Hm). apply slice_run, Hb. }
      apply read_run. cbn. apply lookup_insert_eq. }
  fold a1.
  set (arrs1 := <[a1 := em]> (arrays s)).
  assert (Ha1 : arrs1 !! a = Some es).
  { unfold arrs1. rewrite lookup_insert_ne by (apply (Hfresh _ _ es), Ha). exact Ha. }
  assert (Hb1 : arrs1 !! b = Some em).
  { unfold arrs1. rewrite lookup_insert_ne by (apply (Hfresh _ _ em), Hb). exact Hb. }
  erewrite bind_run by (apply elements_run; cbn; exact Ho).
  erewrite bind_run by (apply read_run; cbn; exact Ha1).
  erewrite bind_run by reflexivity.
  erewrite bind_run by (apply (slice_run _ (Matrix2D.apply es em)); cbn; apply lookup_insert_eq).
  eexists. split; [reflexivity|].
  cbn [arrays Heap.set_arrays Heap.set_objects objects currMatrix matrixStack].
  fold arrs1.
  set (a2 := fresh (dom arrs1)).
  set (arrs2 := <[a2 := Matrix2D.apply es em]> arrs1).
  set (a3 := fresh (dom arrs2)).
  assert (Ha2 : arrs2 !! a = Some es).
  { unfold arrs2. rewrite lookup_insert_ne by (apply (Hfresh _ _ es), Ha1). exact Ha1. }
  assert (Hb2 : arrs2 !! b = Some em).
  { unfold arrs2. rewrite lookup_insert_ne by (apply (Hfresh _ _ em), Hb1). exact Hb1. }
  repeat split.
  - unfold current. cbn. rewrite lookup_insert_eq. cbn. apply lookup_insert_eq.
  - rewrite lookup_insert_ne by (apply (Hfresh _ _ es), Ha2). exact Ha2.
  - rewrite lookup_insert_ne by (apply (Hfresh _ _ em), Hb2). exact Hb2.
Qed.

(** X16. The checks of the public functions: [rotate] without an angle,
    [translate] without one of its coordinates, [scale] whose first
    argument, or whose second of two, is not a number, and [applyMatrix]
    with something that is neither a Matrix2D nor an array all raise and
    leave the current matrix and the stack as they were. *)
Theorem public_checks_raise `{Trig T} (s : State T) :
  pub.rotate None s = Throw (BasilError "Please provide an angle for rotation.") s
  /\ (forall tx ty, tx = None \/ ty = None ->
        pub.translate tx ty s =
        Throw (BasilError "Please provide x and y coordinates for translation.") s)
  /\ (forall arguments,
        mjoin (arguments !! 0%nat) = None
        \/ (length arguments = 2%nat /\ mjoin (arguments !! 1%nat) = None) ->
        pub.scale arguments s =
        Throw (BasilError "Please provide valid x and/or y factors for scaling.") s)
  /\ pub.applyMatrix AOther s = Throw TypeError s.
Proof.
  repeat split.
  - intros tx ty [-> | ->]; unfold pub.translate; [reflexivity|].
    destruct tx; reflexivity.
  - intros arguments Hbad. unfold pub.scale.
    destruct Hbad as [Hfst | [Hlen Hsnd]].
    + rewrite Hfst. reflexivity.
    + rewrite Hsnd, (bool_decide_eq_true_2 _ Hlen).
      destruct (mjoin (arguments !! 0%nat)); reflexivity.
Qed.
End PublicMatrix.

Lemma matrix_keeps_the_object_witness :
  exists s1 s2,
    pub.matrix (Some 3%positive)
      (mkState {[2%positive := [1; 0; 0; 0; 1; 0]%float; 4%positive := [2; 0; 0; 0; 2; 0]%float]}
               {[1%positive := 2%positive; 3%positive := 4%positive]}
               1%positive [] 0%float 0%float) = Return 3%positive s1
    /\ pub.translate (Some 5%float) (Some 6%float) s1 = Return tt s2
    /\ objects s2 !! 3%positive = Some 4%positive
    /\ arrays s2 !! 4%positive = Some (Matrix2D.translate 5%float 6%float [2; 0; 0; 0; 2; 0]%float).
Proof.
  apply (matrix_keeps_the_object _ 3%positive 4%positive [2; 0; 0; 0; 2; 0]%float);
    reflexivity.
Defined.

Lemma applyMatrix_multiplies_witness :
  exists s',
    pub.applyMatrix (AMatrix 1%positive)
      (mkState {[2%positive := [2; 0; 1; 0; 2; 1]%float]} {[1%positive := 2%positive]}
               1%positive [] 0%float 0%float) = Return tt s'
    /\ current s' = Some (Matrix2D.apply [2; 0; 1; 0; 2; 1]%float [2; 0; 1; 0; 2; 1]%float)
    /\ arrays s' !! 2%positive = Some [2; 0; 1; 0; 2; 1]%float
    /\ arrays s' !! 2%positive = Some [2; 0; 1; 0; 2; 1]%float
    /\ currMatrix s' = 1%positive /\ matrixStack s' = [].
Proof.
  apply (applyMatrix_multiplies
           (mkState {[2%positive := [2; 0; 1; 0; 2; 1]%float]} {[1%positive := 2%positive]}
                    1%positive [] 0%float 0%float)
           1%positive 2%positive 2%positive
           [2; 0; 1; 0; 2; 1]%float [2; 0; 1; 0; 2; 1]%float); reflexivity.
Defined.

(** What [resetMatrix()] leaves. *)
Lemma resetMatrix_run (s : State R) :
  exists s',
    pub.resetMatrix s = Return tt s'
    /\ matrixStack s' = []
    /\ current s' = Some [1; 0; currOriginX s; 0; 1; currOriginY s]%R
    /\ objects s !! currMatrix s' = None
    /\ (forall o es, contents s o = Some es -> contents s' o = Some es)
    /\ currOriginX s' = currOriginX s /\ currOriginY s' = currOriginY s.
Proof.
  unfold pub.resetMatrix.
  erewrite bind_run by reflexivity.
  erewrite bind_run by apply new_Matrix2D_run.
  do 3 (erewrite bind_run by reflexivity).
  unfold pub.translate. cbn [is_Some bool_decide].
  rewrite !bool_decide_eq_true_2 by eauto. cbn [negb orb].
  do 2 (erewrite bind_run by reflexivity). unfold Heap.translate.
  cbn [to_number currMatrix Heap.set_currMatrix Heap.set_objects Heap.set_arrays
       Heap.set_matrixStack objects arrays matrixStack currOriginX currOriginY].
  set (o := fresh (dom (objects s))).
  set (a1 := fresh (dom (arrays s))).
  set (a2 := fresh (dom (<[a1 := Matrix2D.reset]> (arrays s)))).
  eexists. split.
  { apply (in_place_run _ o a2 Matrix2D.reset); cbn; apply lookup_insert_eq. }
  cbn. split; [reflexivity|]. split; [|split; [|split; [|split; reflexivity]]].
  - unfold current. cbn. rewrite lookup_insert_eq. cbn. rewrite lookup_insert_eq.
    f_equal. unfold Matrix2D.reset. rewrite translate_six. by_entries.
  - apply not_elem_of_dom, is_fresh.
  - intros o' es. unfold contents. cbn.
    destruct (objects s !! o') as [a|] eqn:Ho'; [|discriminate]. cbn. intros Ha.
    assert (Hoo : o <> o').
    { intros Heq. pose proof (is_fresh (dom (objects s))) as Hf. fold o in Hf.
      rewrite Heq in Hf. apply Hf, elem_of_dom. eauto. }
    assert (Ha1 : a1 <> a).
    { intros Heq. pose proof (alloc_fresh s) as Hf. fold a1 in Hf. congruence. }
    assert (Ha2 : a2 <> a).
    { intros Heq. pose proof (is_fresh (dom (<[a1 := Matrix2D.reset]> (arrays s)))) as Hf.
      fold a2 in Hf. rewrite Heq in Hf. apply Hf, elem_of_dom.
      rewrite lookup_insert_ne by exact Ha1. eauto. }
    rewrite lookup_insert_ne by exact Hoo. rewrite Ho'. cbn.
    rewrite !lookup_insert_ne by assumption. exact Ha.
Qed.

(** X17. [resetMatrix()] empties the stack and makes a new Matrix2D the
    current one, holding the translation by the origin offset; a matrix
    object that held numbers before keeps them. *)
Theorem resetMatrix_starts_afresh (s : State R) :
  exists s',
    pub.resetMatrix s = Return tt s'
    /\ matrixStack s' = []
    /\ current s' = Some [1; 0; currOriginX s; 0; 1; currOriginY s]%R
    /\ objects s !! currMatrix s' = None
    /\ forall o es, contents s o = Some es -> contents s' o = Some es.
Proof.
  destruct (resetMatrix_run s) as (s' & Hrun & Hst & Hcur & Hnew & Hold & _).
  exists s'. auto.
Qed.

Section NestedScopes.
Context {T : Type} `{Number T} `{Trig T}.
Local Open Scope monad_scope.

Lemma framed_ret {A : Type} (a : A) : framed (ret a : M (State T) A).
Proof. intros f s. reflexivity. Qed.

Lemma framed_throw {A : Type} (e : Exn) : framed (throw e : M (State T) A).
Proof. intros f s. reflexivity. Qed.

Lemma framed_bind {A B : Type} (c : M (State T) A) (k : A -> M (State T) B) :
  framed c -> (forall a, framed (k a)) -> framed (bind c k).
Proof.
  intros Hc Hk f s. unfold bind. rewrite Hc.
  destruct (c s); [apply Hk|reflexivity].
Qed.

Lemma framed_read (a : loc) : framed (Heap.read (T := T) a).
Proof. intros f s. unfold Heap.read. cbn. destruct (arrays s !! a); reflexivity. Qed.

Lemma framed_elements (o : loc) : framed (Heap.elements (T := T) o).
Proof. intros f s. unfold Heap.elements. cbn. destruct (objects s !! o); reflexivity. Qed.

Lemma framed_write (a : loc) (es : list T) : framed (Heap.write a es).
Proof. intros f s. reflexivity. Qed.

Lemma framed_alloc (es : list T) : framed (Heap.alloc es).
Proof. intros f s. reflexivity. Qed.

Lemma framed_set_elements (o a : loc) : framed (Heap.set_elements (T := T) o a).
Proof. intros f s. reflexivity. Qed.

Lemma framed_currMatrix : framed (gets (currMatrix (T := T))).
Proof. intros f s. reflexivity. Qed.

Lemma framed_in_place (g : list T -> list T) (o : loc) : framed (Heap.in_place g o).
Proof.
  apply framed_bind; [apply framed_elements|intros a].
  apply framed_bind; [apply framed_read|intros es]. apply framed_write.
Qed.

Lemma framed_slice (a : loc) : framed (Heap.slice (T := T) a).
Proof. apply framed_bind; [apply framed_read|intros es; apply framed_alloc]. Qed.

Lemma framed_source_of (arguments : MatrixArgs T) : framed (Heap.source_of arguments).
Proof.
  destruct arguments as [[m|a|]| |]; cbn [Heap.source_of];
    try apply framed_throw; try apply framed_ret; try apply framed_read.
  apply framed_bind; [|intros a; apply framed_read].
  apply framed_bind; [apply framed_elements|intros a; apply framed_slice].
Qed.

Lemma framed_apply (arguments : MatrixArgs T) (o : loc) : framed (Heap.apply arguments o).
Proof.
  apply framed_bind; [apply framed_source_of|intros source].
  apply framed_bind; [apply framed_elements|intros a].
  apply framed_bind; [apply framed_read|intros es].
  apply framed_bind; [apply framed_alloc|intros result].
  apply framed_bind; [apply framed_slice|intros a']. apply framed_set_elements.
Qed.

Lemma framed_mutate (m : Mutation T) : framed (mutate m).
Proof.
  destruct m as [angle|arguments|tx ty|matrix]; cbn [mutate].
  - apply framed_bind.
    + destruct angle; [apply framed_ret|apply framed_throw].
    + intros _. apply framed_bind; [apply framed_currMatrix|intros o].
      apply framed_in_place.
  - apply framed_bind.
    + match goal with |- framed (if ?b then _ else _) => destruct b end;
        [apply framed_throw|apply framed_ret].
    + intros _. apply framed_bind; [apply framed_currMatrix|intros o].
      apply framed_in_place.
  - apply framed_bind.
    + match goal with |- framed (if ?b then _ else _) => destruct b end;
        [apply framed_throw|apply framed_ret].
    + intros _. apply framed_bind; [apply framed_currMatrix|intros o].
      apply framed_in_place.
  - apply framed_bind; [apply framed_currMatrix|intros o]. apply framed_apply.
Qed.

Lemma set_matrixStack_same (s : State T) :
  Heap.set_matrixStack (fun _ => matrixStack s) s = s.
Proof. destruct s. reflexivity. Qed.

(** A call that changes the current matrix leaves every saved array, the
    stack and the matrix object as they are. *)
Lemma mutate_saved (m : Mutation T) (s : State T) (e : loc * list T) :
  saved s e -> accepted s m ->
  exists s', mutate m s = Return tt s'
             /\ extends s s' /\ currMatrix s' = currMatrix s
             /\ matrixStack s' = matrixStack s
             /\ forall e', saved s e' -> saved s' e'.
Proof.
  intros He Hacc.
  assert (Hk : forall e', saved s e' ->
            keeps e'.1 e'.2 (currMatrix s) []
                  (Heap.set_matrixStack (fun _ => [e'.1]) s)).
  { intros e' (Hp & a & Ho & Hne & Ha). repeat split; cbn; eauto. }
  destruct (mutate_keeps m _ _ _ _ _ (Hk e He)) as [Hret Hrun].
  destruct (Hrun Hacc) as [t Ht].
  pose proof (framed_mutate m (fun _ => [e.1]) s) as Hf. rewrite Ht in Hf.
  destruct (mutate m s) as [[] s'|] eqn:Hs; [|discriminate].
  injection Hf as ->. exists s'. split; [reflexivity|].
  destruct (Hret _ Ht) as [(_ & Hcur & _) Hext].
  split; [exact Hext|]. split; [exact Hcur|]. split.
  - pose proof (framed_mutate m (fun _ => matrixStack s) s) as Hst.
    rewrite set_matrixStack_same, Hs in Hst. injection Hst as Hst.
    rewrite Hst at 1. reflexivity.
  - intros e' He'.
    destruct (mutate_keeps m _ _ _ _ _ (Hk e' He')) as [Hret' _].
    pose proof (framed_mutate m (fun _ => [e'.1]) s) as Hf'. rewrite Hs in Hf'.
    destruct (Hret' _ Hf') as [(Hp & Hcur' & _ & a & Ho & Hne & Ha) _].
    split; [exact Hp|]. exists a. cbn in Hcur', Ho. rewrite Hcur'. auto.
Qed.

Lemma fresh_allocated (arrs : gmap loc (list T)) (p : loc) (es : list T) :
  arrs !! p = Some es -> fresh (dom arrs) <> p.
Proof.
  intros Hp Heq. pose proof (is_fresh (dom arrs)) as Hf.
  rewrite Heq in Hf. apply Hf, elem_of_dom. eauto.
Qed.

(** [pushMatrix()] saves the numbers of the current matrix in a new array
    on top of the stack. *)
Lemma pushMatrix_saved (s : State T) (a : loc) (es : list T) :
  objects s !! currMatrix s = Some a -> arrays s !! a = Some es ->
  exists s1 p, pub.pushMatrix s = Return tt s1
               /\ matrixStack s1 = matrixStack s ++ [p]
               /\ currMatrix s1 = currMatrix s /\ extends s s1
               /\ saved s1 (p, es)
               /\ forall e, saved s e -> saved s1 e.
Proof.
  intros Ho Ha. unfold pub.pushMatrix.
  erewrite bind_run by reflexivity. unfold Heap.array.
  erewrite bind_run; [|erewrite bind_run by (apply elements_run, Ho);
                       apply slice_run, Ha].
  eexists _, _. split; [reflexivity|]. cbn.
  assert (Hne : a <> fresh (dom (arrays s))).
  { intros Heq. symmetry in Heq. revert Heq. apply (fresh_allocated _ _ es), Ha. }
  repeat split.
  - apply (insert_extends _ es s).
  - apply (insert_extends _ es s).
  - cbn. apply lookup_insert_eq.
  - exists a. cbn. rewrite lookup_insert_ne by auto. eauto.
  - destruct H1 as (Hp & _). cbn.
    rewrite lookup_insert_ne by (apply (fresh_allocated _ _ e.2), Hp). exact Hp.
  - destruct H1 as (_ & b & Hb & Hne' & Hb'). exists b. cbn.
    split; [exact Hb|]. split; [exact Hne'|].
    apply (insert_extends _ es s), Hb'.
Qed.

(** [popMatrix()] takes the array on top of the stack and gives the current
    matrix a copy of it. *)
Lemma popMatrix_saved (s : State T) (below : list loc) (p : loc) (snapshot : list T) :
  matrixStack s = below ++ [p] -> saved s (p, snapshot) ->
  exists s1, pub.popMatrix s = Return tt s1
             /\ matrixStack s1 = below /\ currMatrix s1 = currMatrix s
             /\ current s1 = Some snapshot /\ extends s s1
             /\ forall e, saved s e -> saved s1 e.
Proof.
  intros Hst (Hp & a & Ho & Hne & Ha). cbn in Hp.
  unfold pub.popMatrix. erewrite bind_run by reflexivity.
  rewrite Hst, length_app. cbn [length].
  replace (0 <? length below + 1)%nat with true
    by (symmetry; apply Nat.ltb_lt; lia).
  unfold pub.stack_pop at 1. unfold bind at 1.
  rewrite Hst, last_snoc.
  erewrite bind_run by reflexivity. cbn [currMatrix Heap.set_matrixStack].
  unfold Heap.set_Array.
  erewrite bind_run by (apply (slice_run _ snapshot); exact Hp).
  eexists. split; [reflexivity|]. cbn.
  rewrite Hst, removelast_last.
  split; [reflexivity|]. split; [reflexivity|]. split; [|split].
  - unfold current. cbn. rewrite lookup_insert_eq. cbn. apply lookup_insert_eq.
  - split; cbn.
    + intros b Hb. apply (insert_extends _ snapshot s), Hb.
    + intros o (b & Hob & Hb). destruct (decide (o = currMatrix s)) as [->|Hoo].
      * eexists. cbn. rewrite lookup_insert_eq. split; [reflexivity|].
        rewrite lookup_insert_eq. eauto.
      * exists b. cbn. rewrite lookup_insert_ne by auto. split; [exact Hob|].
        apply (insert_extends _ snapshot s), Hb.
  - intros e (He & _). split; cbn.
    + rewrite lookup_insert_ne by (apply (fresh_allocated _ _ e.2), He). exact He.
    + eexists. rewrite lookup_insert_eq. split; [reflexivity|].
      split; [apply (fresh_allocated _ _ e.2), He|].
      rewrite lookup_insert_eq. eauto.
Qed.
Lemma calls_app (cs cs' : list (Call T)) (s s' : State T) :
  calls cs s = Return tt s' -> calls (cs ++ cs') s = calls cs' s'.
Proof.
  revert s. induction cs as [|c cs IH]; intros s Hs; cbn [calls app] in *.
  - injection Hs as ->. reflexivity.
  - apply bind_Return in Hs as ([] & s1 & Hc & Hs).
    erewrite bind_run by exact Hc. apply IH, Hs.
Qed.

(** A script below an open [pushMatrix()] whose array is [e0]: the arrays
    [ext] pushed since are the ones its own [popMatrix()] calls take, and
    every array still on the stack keeps its snapshot. *)
Lemma calls_nested (cs : list (Call T)) :
  forall (s : State T) (below : list loc) (e0 : loc * list T)
         (ext : list (loc * list T)) (n : nat),
    matrixStack s = below ++ e0.1 :: ext.*1 ->
    Forall (saved s) (e0 :: ext) ->
    nesting cs (length ext) = Some n ->
    Forall (accepted s) (mutations_of cs) ->
    exists s' ext',
      calls cs s = Return tt s'
      /\ matrixStack s' = below ++ e0.1 :: ext'.*1
      /\ length ext' = n
      /\ Forall (saved s') (e0 :: ext')
      /\ currMatrix s' = currMatrix s.
Proof.
  induction cs as [|c cs IH]; intros s below e0 ext n Hst Hsv Hn Hacc.
  - cbn in Hn. injection Hn as <-. exists s, ext. auto.
  - destruct c as [| |m]; cbn [calls call nesting] in *.
    + (* pushMatrix *)
      pose proof (Forall_inv Hsv) as (_ & a & Ho & _ & [es Ha]).
      destruct (pushMatrix_saved s a es Ho Ha)
        as (s1 & p & Hrun & Hst1 & Hcur1 & Hext1 & Hnew & Hold).
      destruct (IH s1 below e0 (ext ++ [(p, es)]) n)
        as (s' & ext' & Hrun' & Hst' & Hlen' & Hsv' & Hcur').
      * rewrite Hst1, Hst, fmap_app, <- app_assoc. reflexivity.
      * rewrite app_comm_cons. apply Forall_app. split.
        -- eapply Forall_impl; [exact Hsv|exact Hold].
        -- constructor; [exact Hnew|constructor].
      * rewrite length_app. cbn [length].
        replace (length ext + 1)%nat with (S (length ext)) by lia. exact Hn.
      * eapply Forall_impl; [exact Hacc|].
        intros m'. apply accepted_extends, Hext1.
      * exists s', ext'. erewrite bind_run by exact Hrun.
        rewrite Hcur', Hcur1. auto.
    + (* popMatrix *)
      destruct ext as [|[p snap] ext _] using rev_ind; [discriminate|].
      rewrite length_app in Hn. cbn [length] in Hn.
      replace (length ext + 1)%nat with (S (length ext)) in Hn by lia.
      rewrite fmap_app in Hst. cbn [fmap list_fmap fst] in Hst.
      rewrite app_comm_cons, app_assoc in Hst.
      rewrite app_comm_cons in Hsv. apply Forall_app in Hsv as [Hsv Hp].
      apply Forall_inv in Hp.
      destruct (popMatrix_saved s _ p snap Hst Hp)
        as (s1 & Hrun & Hst1 & Hcur1 & _ & Hext1 & Hold).
      destruct (IH s1 below e0 ext n)
        as (s' & ext' & Hrun' & Hst' & Hlen' & Hsv' & Hcur').
      * exact Hst1.
      * eapply Forall_impl; [exact Hsv|exact Hold].
      * exact Hn.
      * eapply Forall_impl; [exact Hacc|].
        intros m'. apply accepted_extends, Hext1.
      * exists s', ext'. erewrite bind_run by exact Hrun.
        rewrite Hcur', Hcur1. auto.
    + (* rotate, scale, translate, applyMatrix *)
      unfold mutations_of in Hacc. cbn [omap list_omap] in Hacc.
      fold (mutations_of cs) in Hacc.
      pose proof (Forall_inv Hacc) as Hm. apply Forall_inv_tail in Hacc.
      destruct (mutate_saved m s e0 (Forall_inv Hsv) Hm)
        as (s1 & Hrun & Hext1 & Hcur1 & Hst1 & Hold).
      destruct (IH s1 below e0 ext n)
        as (s' & ext' & Hrun' & Hst' & Hlen' & Hsv' & Hcur').
      * rewrite Hst1. exact Hst.
      * eapply Forall_impl; [exact Hsv|exact Hold].
      * exact Hn.
      * eapply Forall_impl; [exact Hacc|].
        intros m'. apply accepted_extends, Hext1.
      * exists s', ext'. erewrite bind_run by exact Hrun.
        rewrite Hcur', Hcur1. auto.
Qed.

(** X18. Scopes nest: in [pushMatrix(); <calls>; popMatrix()], where the
    calls in between may themselves push and pop as long as each of their
    [popMatrix()] has a [pushMatrix()] of their own before it and none is
    left open, and the calls that change the matrix get arguments they
    accept, no call raises and the script ends with the current matrix
    holding the numbers it started with, on the stack and in the matrix
    object it started with. *)
Theorem nested_scopes_restore (s : State T) (a : loc) (es : list T) (cs : list (Call T)) :
  objects s !! currMatrix s = Some a -> arrays s !! a = Some es ->
  nesting cs 0 = Some 0%nat ->
  Forall (accepted s) (mutations_of cs) ->
  exists s',
    calls (CPushMatrix :: cs ++ [CPopMatrix]) s = Return tt s'
    /\ current s' = Some es
    /\ matrixStack s' = matrixStack s /\ currMatrix s' = currMatrix s.
Proof.
  intros Ho Ha Hn Hacc. cbn [calls call].
  destruct (pushMatrix_saved s a es Ho Ha)
    as (s1 & p & Hrun & Hst1 & Hcur1 & Hext1 & Hnew & _).
  erewrite bind_run by exact Hrun.
  destruct (calls_nested cs s1 (matrixStack s) (p, es) [] 0%nat)
    as (s2 & ext & Hrun2 & Hst2 & Hlen & Hsv & Hcur2).
  - rewrite Hst1. reflexivity.
  - constructor; [exact Hnew|constructor].
  - exact Hn.
  - eapply Forall_impl; [exact Hacc|]. intros m'. apply accepted_extends, Hext1.
  - destruct ext; [|discriminate]. cbn in Hst2.
    rewrite (calls_app cs [CPopMatrix] s1 s2 Hrun2). cbn [calls call].
    destruct (popMatrix_saved s2 (matrixStack s) p es Hst2 (Forall_inv Hsv))
      as (s3 & Hrun3 & Hst3 & Hcur3 & Hres & _).
    erewrite bind_run by exact Hrun3. exists s3.
    split; [reflexivity|]. split; [exact Hres|]. split; [exact Hst3|].
    rewrite Hcur3, Hcur2, Hcur1. reflexivity.
Qed.
End NestedScopes.

Lemma nested_scopes_restore_witness :
  exists s',
    calls (CPushMatrix ::
           [CMutation (MTranslate (Some 3%R) (Some 4%R)); CPushMatrix;
            CMutation (MRotate (Some 1%R)); CPushMatrix; CMutation (MScale [Some 2%R]);
            CPopMatrix; CPopMatrix; CMutation (MApplyMatrix (AMatrix 1%positive))]
           ++ [CPopMatrix])
          (mkState {[2%positive := [1; 0; 0; 0; 1; 0]%R]} {[1%positive := 2%positive]}
                   1%positive [] 0%R 0%R)
    = Return tt s'
    /\ current s' = Some [1; 0; 0; 0; 1; 0]%R
    /\ matrixStack s' = [] /\ currMatrix s' = 1%positive.
Proof.
  apply (nested_scopes_restore
           (mkState {[2%positive := [1; 0; 0; 0; 1; 0]%R]} {[1%positive := 2%positive]}
                    1%positive [] 0%R 0%R)
           2%positive [1; 0; 0; 0; 1; 0]%R);
    [reflexivity|reflexivity|reflexivity|].
  repeat constructor; cbn; eauto; try discriminate.
  exists 2%positive. split; [reflexivity|]. eexists. reflexivity.
Defined.

Lemma get_is_a_copy_witness :
  let s := mkState {[2%positive := [1; 0; 5; 0; 1; 6]%float]} {[1%positive := 2%positive]}
                   1%positive [] 0%float 0%float in
  exists o s',
    Heap.get 1%positive s = Return o s'
    /\ objects s !! o = None
    /\ contents s' o = Some [1; 0; 5; 0; 1; 6]%float
    /\ contents s' 1%positive = Some [1; 0; 5; 0; 1; 6]%float
    /\ (forall f, exists s'', Heap.in_place f o s' = Return tt s''
                              /\ contents s'' o = Some (f [1; 0; 5; 0; 1; 6]%float)
                              /\ contents s'' 1%positive = Some [1; 0; 5; 0; 1; 6]%float)
    /\ (forall f, exists s'', Heap.in_place f 1%positive s' = Return tt s''
                              /\ contents s'' 1%positive = Some (f [1; 0; 5; 0; 1; 6]%float)
                              /\ contents s'' o = Some [1; 0; 5; 0; 1; 6]%float).
Proof.
  intros s.
  apply (get_is_a_copy s 1%positive 2%positive [1; 0; 5; 0; 1; 6]%float); reflexivity.
Defined.

(** ** The facade: which calls return *)

(** Running a call forward through every test it makes. *)
Ltac branches Hhost :=
  repeat match goal with
         | |- context [if ?b then _ else _] => destruct b eqn:?; cbn -[Facade.transform]
         | |- context [item_transform ?i ?a ?m] => host_step Hhost
         end.

(** The tests of [transform] all fail on the other strings, and on no
    string of [transform_types]. *)
Lemma unknown_type (type : string) :
  (type ∉ transform_types) <->
  (type =? "width")%string = false /\ (type =? "height")%string = false
  /\ (type =? "size")%string = false
  /\ (type =? "translate")%string || (type =? "translation")%string = false
  /\ (type =? "rotate")%string || (type =? "rotation")%string = false
  /\ (type =? "scale")%string || (type =? "scaling")%string = false
  /\ (type =? "shear")%string || (type =? "shearing")%string = false
  /\ (type =? "position")%string || (type =? "x")%string || (type =? "y")%string = false.
Proof.
  unfold transform_types. rewrite !not_elem_of_cons, !orb_false_iff, !String.eqb_neq.
  pose proof (not_elem_of_nil type). tauto.
Qed.

Section FacadeOutcomes.
Context {T : Type} `{Number T} `{Host T}.
Variable env : Env T.

Local Abbreviation restored := (mkPrefs true APPLY_TO_CONTENT).
Local Abbreviation switched := (mkPrefs false ADJUST_SCALING_PERCENTAGE).

Lemma transform_unknown_type (fuel : nat) (type : string) (value : Value T) prefs it :
  type ∉ transform_types ->
  Facade.transform env (S fuel) type value (mkApp prefs (Some it)) =
  Throw (BasilError Facade.invalid_transform_type) (mkApp switched (Some it)).
Proof.
  intros (Hw & Hh & Hs & Ht & Hr & Hsc & Hsh & Hp)%unknown_type.
  rewrite transform_S. run. rewrite Hw, Hh, Hs, Ht, Hr, Hsc, Hsh, Hp. reflexivity.
Qed.

(** X19. A call of [transform] without a value to set (the third parameter
    undefined, or neither a number nor an array) returns for each of the
    fourteen transformation names, whatever the host, and leaves the page
    item as it was. *)
Theorem transform_read_keeps_item (type : string) (value : Value T)
    (prefs : TransformPreferences) (it : PageItem) :
  Facade.isNumber value = false -> Facade.isArray value = false ->
  type ∈ transform_types ->
  exists v, transform env type value (mkApp prefs (Some it)) =
            Return v (mkApp restored (Some it)).
Proof.
  intros Hn Ha Htype. unfold transform, transform_types in *.
  repeat (apply elem_of_cons in Htype as [->|Htype]); [..|apply elem_of_nil in Htype as []].
  all: rewrite transform_S; run; rewrite ?Hn, ?Ha; cbn -[Facade.transform].
  all: try (eexists; reflexivity).
  all: rewrite transform_S; run; eexists; reflexivity.
Qed.

Hypothesis host_returns :
  forall (it : PageItem) (a : AnchorPoint) (tm : TransformationMatrix),
    is_Some (item_transform it a tm).

(** A call on a page item raises only for want of fuel or for its type. *)
Lemma transform_Throw (fuel : nat) :
  forall (type : string) (value : Value T) prefs (it : PageItem) e s',
    Facade.transform env fuel type value (mkApp prefs (Some it)) = Throw e s' ->
    e = OutOfFuel \/ type ∉ transform_types.
Proof.
  induction fuel as [|fuel IH]; intros type value prefs it e s'.
  { intros [= <- _]. left. reflexivity. }
  rewrite transform_S. run. branches host_returns.
  all: try discriminate.
  all: try match goal with
           | |- context [Facade.transform env ?f ?t ?v ?s] =>
               destruct (Facade.transform env f t v s) as [r s1|e1 s1] eqn:Hcall;
               [discriminate|];
               intros [= <- <-];
               destruct (IH _ _ _ _ _ _ Hcall) as [->|Hno];
               [left; reflexivity|exfalso; apply Hno; unfold transform_types; set_solver]
           end.
  intros _. right. apply unknown_type. auto 10.
Qed.

(** A call on a page item that returns leaves a page item. *)
Lemma transform_Return (fuel : nat) :
  forall (type : string) (value : Value T) prefs (it : PageItem) v s',
    Facade.transform env fuel type value (mkApp prefs (Some it)) = Return v s' ->
    exists it', s' = mkApp restored (Some it').
Proof.
  induction fuel as [|fuel IH]; intros type value prefs it v s'; [discriminate|].
  rewrite transform_S. run. branches host_returns.
  all: try discriminate.
  all: try (intros [= <- <-]; eauto).
  all: match goal with
       | |- context [Facade.transform env ?f ?t ?v ?s] =>
           destruct (Facade.transform env f t v s) as [r s1|e1 s1] eqn:Hcall;
           [|discriminate];
           destruct (IH _ _ _ _ _ _ Hcall) as [it1 ->]; cbn;
           intros [= <- <-]; eauto
       end.
Qed.

(** X20. When the host carries out every transformation it is asked for,
    [transform] on a page item returns for each of the fourteen
    transformation names, whatever the value, with the preferences
    restored; for any other name it raises the error on the type with the
    item as it was and the preferences left switched; and without a page
    item it raises before it touches the preferences. *)
Theorem transform_raises_only_on_unknown_type (type : string) (value : Value T)
    (prefs : TransformPreferences) (it : PageItem) :
  (type ∈ transform_types ->
   exists v it', transform env type value (mkApp prefs (Some it)) =
                 Return v (mkApp restored (Some it')))
  /\ ((type ∉ transform_types) ->
      transform env type value (mkApp prefs (Some it)) =
      Throw (BasilError Facade.invalid_transform_type) (mkApp switched (Some it)))
  /\ transform env type value (mkApp prefs None) =
     Throw (BasilError "transform(), invalid first parameter. Use page item.")
           (mkApp prefs None).
Proof.
  split; [|split; [apply transform_unknown_type|reflexivity]].
  intros Htype.
  destruct (transform env type value (mkApp prefs (Some it))) as [v s'|e s'] eqn:Hrun.
  - destruct (transform_Return _ _ _ _ _ _ _ Hrun) as [it' ->]. eauto.
  - exfalso. destruct (transform_Throw _ _ _ _ _ _ _ Hrun) as [->|Hno]; [|auto].
    exact (transform_fuel_suffices _ _ _ _ _ Hrun).
Qed.
End FacadeOutcomes.

Lemma transform_read_keeps_item_witness :
  exists v, transform Boxes.env "translate" (VString "here")
              (Boxes.app false ADJUST_SCALING_PERCENTAGE Boxes.box) =
            Return v (Boxes.app true APPLY_TO_CONTENT Boxes.box).
Proof.
  apply (transform_read_keeps_item Boxes.env "translate" (VString "here")
           (mkPrefs false ADJUST_SCALING_PERCENTAGE) Boxes.box);
    [reflexivity|reflexivity|].
  unfold transform_types. repeat constructor.
Defined.

Lemma transform_raises_only_on_unknown_type_witness :
  (exists v it', transform Boxes.env "scale" (VNumber 2%float)
                   (Boxes.app true APPLY_TO_CONTENT Boxes.box) =
                 Return v (Boxes.app true APPLY_TO_CONTENT it'))
  /\ transform Boxes.env "skew" (VNumber 2%float)
       (Boxes.app true APPLY_TO_CONTENT Boxes.box) =
     Throw (BasilError Facade.invalid_transform_type)
           (Boxes.app false ADJUST_SCALING_PERCENTAGE Boxes.box).
Proof.
  destruct (transform_raises_only_on_unknown_type Boxes.env boxes_host_returns
              "scale" (VNumber 2%float) (mkPrefs true APPLY_TO_CONTENT) Boxes.box)
    as (Hret & _ & _).
  destruct (transform_raises_only_on_unknown_type Boxes.env boxes_host_returns
              "skew" (VNumber 2%float) (mkPrefs true APPLY_TO_CONTENT) Boxes.box)
    as (_ & Hraise & _).
  split.
  - apply Hret. unfold transform_types. repeat constructor.
  - apply Hraise. apply unknown_type. repeat split; reflexivity.
Defined.

(** ** The canvas modes *)

Section CanvasModes.
Local Open Scope R_scope.

Lemma translate_run (s : State R) (a b tx ty : R) :
  current s = Some [1; 0; a; 0; 1; b] ->
  exists s',
    pub.translate (Some tx) (Some ty) s = Return tt s'
    /\ matrixStack s' = matrixStack s
    /\ current s' = Some [1; 0; a + tx; 0; 1; b + ty]
    /\ currOriginX s' = currOriginX s /\ currOriginY s' = currOriginY s.
Proof.
  unfold current. intros Hcur.
  destruct (objects s !! currMatrix s) as [o|] eqn:Ho; [|discriminate]. cbn in Hcur.
  unfold pub.translate. cbn [is_Some bool_decide].
  rewrite !bool_decide_eq_true_2 by eauto. cbn [negb orb].
  do 2 (erewrite bind_run by reflexivity). unfold Heap.translate.
  erewrite (in_place_run _ _ o) by eassumption.
  eexists. split; [reflexivity|]. cbn. rewrite Ho. cbn. rewrite lookup_insert_eq.
  repeat split. rewrite translate_six. f_equal. by_entries.
Qed.

Lemma canvas_resetMatrix_run (c : Canvas.Sketch R) :
  exists m,
    Canvas.resetMatrix c =
    Return tt (Canvas.mkSketch m (Canvas.width c) (Canvas.height c) (Canvas.currCanvasMode c))
    /\ matrixStack m = []
    /\ current m = Some [1; 0; currOriginX (Canvas.matrices c); 0; 1;
                         currOriginY (Canvas.matrices c)]
    /\ currOriginX m = currOriginX (Canvas.matrices c)
    /\ currOriginY m = currOriginY (Canvas.matrices c).
Proof.
  destruct (resetMatrix_run (Canvas.matrices c)) as (m & Hrun & Hst & Hcur & _ & _ & Hx & Hy).
  exists m. unfold Canvas.resetMatrix, Canvas.on_matrices. rewrite Hrun. auto.
Qed.

Lemma canvas_translate_run (c : Canvas.Sketch R) (a b tx ty : R) :
  current (Canvas.matrices c) = Some [1; 0; a; 0; 1; b] ->
  exists m,
    Canvas.translate tx ty c =
    Return tt (Canvas.mkSketch m (Canvas.width c) (Canvas.height c) (Canvas.currCanvasMode c))
    /\ matrixStack m = matrixStack (Canvas.matrices c)
    /\ current m = Some [1; 0; a + tx; 0; 1; b + ty]
    /\ currOriginX m = currOriginX (Canvas.matrices c)
    /\ currOriginY m = currOriginY (Canvas.matrices c).
Proof.
  intros Hcur.
  destruct (translate_run _ a b tx ty Hcur) as (m & Hrun & Hfacts).
  exists m. unfold Canvas.translate, Canvas.on_matrices. rewrite Hrun. auto.
Qed.

Ltac canvas_step :=
  match goal with
  | |- context [Canvas.resetMatrix ?c] =>
      let m := fresh "m" in
      let Hrun := fresh "Hrun" in
      let Hst := fresh "Hst" in
      let Hcur := fresh "Hcur" in
      let Hx := fresh "Hx" in
      let Hy := fresh "Hy" in
      destruct (canvas_resetMatrix_run c) as (m & Hrun & Hst & Hcur & Hx & Hy);
      cbn [Canvas.matrices Canvas.width Canvas.height Canvas.currCanvasMode] in *;
      rewrite Hrun
  | Hc : current ?m0 = Some [_; _; ?a; _; _; ?b]
    |- context [Canvas.translate ?tx ?ty (Canvas.mkSketch ?m0 ?w ?h ?cm)] =>
      let m := fresh "m" in
      let Hrun := fresh "Hrun" in
      let Hst := fresh "Hst" in
      let Hcur := fresh "Hcur" in
      let Hx := fresh "Hx" in
      let Hy := fresh "Hy" in
      destruct (canvas_translate_run (Canvas.mkSketch m0 w h cm) a b tx ty Hc)
        as (m & Hrun & Hst & Hcur & Hx & Hy);
      cbn [Canvas.matrices Canvas.width Canvas.height Canvas.currCanvasMode] in *;
      rewrite Hrun; clear Hc
  end.

(** X21. [canvasMode(m)] with one of the six modes, on a page whose bounds
    are [y1, x1, y2, x2]: it returns [m], empties the matrix stack and
    leaves as current matrix the translation by the origin offset plus the
    shift of the mode, and in [width] and [height] the size of the canvas.
    On the right-hand page of a spread the three facing modes shift by one
    page width more than on the left-hand page ([FACING_PAGES] not on the
    page named 1, which gets the size of a single page); [BLEED] with
    facing pages adds the inside bleed only to the width and, on a
    right-hand page, does not shift across. *)
Theorem canvasMode_origin_and_size (page : Canvas.PageSetup R) (c : Canvas.Sketch R)
    (mode : CanvasMode) (y1 x1 y2 x2 : R) :
  Canvas.bounds page = [y1; x1; y2; x2] ->
  let ox := currOriginX (Canvas.matrices c) in
  let oy := currOriginY (Canvas.matrices c) in
  let pw := x2 - x1 in
  let ph := y2 - y1 in
  let across := if Canvas.right_hand page then pw else 0 in
  let l := Canvas.left page in
  let r := Canvas.right page in
  let t := Canvas.top page in
  let b := Canvas.bottom page in
  let bi := Canvas.documentBleedInsideOrLeftOffset page in
  let bo := Canvas.documentBleedOutsideOrRightOffset page in
  let bt := Canvas.documentBleedTopOffset page in
  let bb := Canvas.documentBleedBottomOffset page in
  exists c',
    Canvas.canvasMode page (Some (Some mode)) c = Return (Some mode) c'
    /\ matrixStack (Canvas.matrices c') = []
    /\ let result (dx dy w h : R) :=
         current (Canvas.matrices c') = Some [1; 0; ox + dx; 0; 1; oy + dy]
         /\ Canvas.width c' = w /\ Canvas.height c' = h in
       match mode with
       | PAGE => result 0 0 pw ph
       | MARGIN => result l t (pw - l - r) (ph - t - b)
       | BLEED =>
           if Canvas.facingPages page
           then result (if Canvas.right_hand page then 0 else - bi) (- bt)
                       (pw + bi) (ph + bb + bt)
           else result (- bi) (- bt) (pw + bi + bo) (ph + bb + bt)
       | FACING_PAGES =>
           if Canvas.named_1 page then result 0 0 pw ph
           else result (- across) 0 (2 * pw) ph
       | FACING_BLEEDS => result (- bi - across) (- bt) (2 * pw + bi + bo) (ph + bb + bt)
       | FACING_MARGINS => result (l - across) t (2 * pw - l - r) (ph - t - b)
       end.
Proof.
  intros Hb. cbv zeta. destruct c as [m0 w0 h0 cm0].
  unfold Canvas.canvasMode, Canvas.updatePublicPageSizeVars. rewrite Hb.
  unfold bind, Canvas.set_currCanvasMode, Canvas.set_width, Canvas.set_height,
    modify, gets, ret.
  cbn [Canvas.matrices Canvas.width Canvas.height Canvas.currCanvasMode].
  destruct mode, (Canvas.facingPages page), (Canvas.right_hand page), (Canvas.named_1 page);
    cbn [andb].
  all: repeat canvas_step.
  all: eexists; split; [reflexivity|].
  all: cbn [Canvas.matrices Canvas.width Canvas.height Canvas.currCanvasMode].
  all: split; [congruence|].
  all: split; [|split; cbn; lra].
  all: match goal with Hc : current ?m = _ |- current ?m = _ => rewrite Hc end.
  all: repeat match goal with Hx : currOriginX _ = _ |- _ => rewrite Hx; clear Hx end.
  all: repeat match goal with Hy : currOriginY _ = _ |- _ => rewrite Hy; clear Hy end.
  all: cbn; f_equal; by_entries.
Qed.
End CanvasModes.

Lemma canvasMode_origin_and_size_witness :
  exists c',
    Canvas.canvasMode
      (Canvas.mkPageSetup [0; 0; 297; 210]%R true true false 10%R 20%R 30%R 40%R 3%R 3%R 3%R 3%R)
      (Some (Some FACING_MARGINS))
      (Canvas.mkSketch
         (mkState {[2%positive := [1; 0; 0; 0; 1; 0]%R]} {[1%positive := 2%positive]}
                  1%positive [] 0%R 0%R)
         0%R 0%R (Some PAGE))
    = Return (Some FACING_MARGINS) c'
    /\ matrixStack (Canvas.matrices c') = []
    /\ current (Canvas.matrices c') = Some [1; 0; -200; 0; 1; 30]%R
    /\ Canvas.width c' = 390%R /\ Canvas.height c' = 227%R.
Proof.
  destruct (canvasMode_origin_and_size
              (Canvas.mkPageSetup [0; 0; 297; 210]%R true true false
                                  10%R 20%R 30%R 40%R 3%R 3%R 3%R 3%R)
              (Canvas.mkSketch
                 (mkState {[2%positive := [1; 0; 0; 0; 1; 0]%R]} {[1%positive := 2%positive]}
                          1%positive [] 0%R 0%R)
                 0%R 0%R (Some PAGE))
              FACING_MARGINS 0%R 0%R 297%R 210%R eq_refl)
    as (c' & Hrun & Hst & Hcur & Hw & Hh).
  exists c'. cbn in Hcur, Hw, Hh. rewrite Hcur, Hw, Hh.
  split; [exact Hrun|]. split; [exact Hst|].
  split; [f_equal; by_entries|]. split; lra.
Defined.

(** ** More on how the methods compose *)

(** X22. [M.preApply(S)] leaves in M the matrix that [S.apply(M)] leaves
    in S: the two methods are the same product with the roles of receiver
    and argument exchanged. Numbers are the reals. *)
Theorem preApply_is_apply_reversed (M S : list R) :
  length M = 6%nat -> length S = 6%nat ->
  Matrix2D.preApply M S = Matrix2D.apply S M.
Proof.
  intros HM HS. six. rewrite preApply_six, apply_six. by_entries.
Qed.

Lemma preApply_is_apply_reversed_witness :
  Matrix2D.preApply [2; 0; 1; 0; 3; 1]%R [1; 1; 4; 0; 1; 5]%R =
  Matrix2D.apply [1; 1; 4; 0; 1; 5]%R [2; 0; 1; 0; 3; 1]%R.
Proof. apply preApply_is_apply_reversed; reflexivity. Defined.

Lemma invert_of_apply_six (m0 m1 m2 m3 m4 m5 s0 s1 s2 s3 s4 s5 : R) :
  (m0 * m4 - m1 * m3 <> 0)%R -> (s0 * s4 - s1 * s3 <> 0)%R ->
  snd (Matrix2D.invert (Matrix2D.apply [m0; m1; m2; m3; m4; m5] [s0; s1; s2; s3; s4; s5])) =
  Matrix2D.apply (snd (Matrix2D.invert [s0; s1; s2; s3; s4; s5]))
                 (snd (Matrix2D.invert [m0; m1; m2; m3; m4; m5])).
Proof.
  intros HdM HdS.
  assert (Hd : ((m0 * s0 + m1 * s3) * (m3 * s1 + m4 * s4)
                - (m0 * s1 + m1 * s4) * (m3 * s0 + m4 * s3) <> 0)%R).
  { replace ((m0 * s0 + m1 * s3) * (m3 * s1 + m4 * s4)
             - (m0 * s1 + m1 * s4) * (m3 * s0 + m4 * s3))%R
      with ((m0 * m4 - m1 * m3) * (s0 * s4 - s1 * s3))%R by ring.
    apply Rmult_integral_contrapositive_currified; assumption. }
  rewrite apply_six, !invert_six_R. cbn [snd]. rewrite apply_six.
  repeat (apply (f_equal2 cons)); try reflexivity; cbn; field; auto.
Qed.

(** X23. Inverting a product: when neither determinant is zero, [invert]
    on what [M.apply(S)] leaves gives what applying the inverse of M to
    the inverse of S gives, [inv(S).apply(inv(M))]. *)
Theorem invert_of_apply (M S : list R) :
  length M = 6%nat -> length S = 6%nat ->
  Matrix2D.determinant M <> 0%R -> Matrix2D.determinant S <> 0%R ->
  snd (Matrix2D.invert (Matrix2D.apply M S)) =
  Matrix2D.apply (snd (Matrix2D.invert S)) (snd (Matrix2D.invert M)).
Proof.
  intros HM HS HdM HdS. six. rewrite determinant_six in *.
  apply invert_of_apply_six; assumption.
Qed.

Lemma invert_of_apply_witness :
  snd (Matrix2D.invert (Matrix2D.apply [2; 0; 1; 0; 3; 1]%R [1; 1; 4; 0; 1; 5]%R)) =
  Matrix2D.apply (snd (Matrix2D.invert [1; 1; 4; 0; 1; 5]%R))
                 (snd (Matrix2D.invert [2; 0; 1; 0; 3; 1]%R)).
Proof.
  apply invert_of_apply; try reflexivity; rewrite determinant_six; lra.
Defined.

(** X24. The inverted matrix maps points back: for a determinant that is
    not zero, [mult] with what [invert] leaves takes the image of a
    two-element array under [mult] back to the array, and the image of a
    Vector back to its x and y, with z set to 0. *)
Theorem invert_maps_back (M : list R) (x y z : R) :
  length M = 6%nat -> Matrix2D.determinant M <> 0%R ->
  Matrix2D.mult (snd (Matrix2D.invert M)) (Matrix2D.mult M (PArray [x; y]) None) None =
  PArray [x; y]
  /\ Matrix2D.mult (snd (Matrix2D.invert M)) (Matrix2D.mult M (PVector x y z) None) None =
     PVector x y 0%R.
Proof.
  intros HM Hd. six. rewrite determinant_six in Hd.
  rewrite invert_six_R. cbn [snd].
  rewrite !mult_six_array, !mult_six_vector. split.
  - f_equal. repeat (apply (f_equal2 cons)); try reflexivity; cbn; field; exact Hd.
  - f_equal; cbn; field; exact Hd.
Qed.

Lemma invert_maps_back_witness :
  Matrix2D.mult (snd (Matrix2D.invert [2; 0; 1; 0; 3; 1]%R))
                (Matrix2D.mult [2; 0; 1; 0; 3; 1]%R (PArray [7; 8]%R) None) None =
  PArray [7; 8]%R
  /\ Matrix2D.mult (snd (Matrix2D.invert [2; 0; 1; 0; 3; 1]%R))
                   (Matrix2D.mult [2; 0; 1; 0; 3; 1]%R (PVector 7 8 9)%R None) None =
     PVector 7%R 8%R 0%R.
Proof.
  apply invert_maps_back; [reflexivity|]. rewrite determinant_six. lra.
Defined.

Lemma public_checks_raise_witness :
  let s := mkState {[2%positive := [1; 0; 0; 0; 1; 0]%R]} {[1%positive := 2%positive]}
                   1%positive [] 0%R 0%R in
  pub.rotate None s = Throw (BasilError "Please provide an angle for rotation.") s
  /\ pub.translate (Some 1%R) None s =
     Throw (BasilError "Please provide x and y coordinates for translation.") s
  /\ pub.scale [Some 2%R; None] s =
     Throw (BasilError "Please provide valid x and/or y factors for scaling.") s
  /\ pub.applyMatrix AOther s = Throw TypeError s.
Proof.
  intros s. destruct (public_checks_raise s) as (Hrotate & Htranslate & Hscale & Happly).
  split; [exact Hrotate|]. split; [apply Htranslate; right; reflexivity|].
  split; [apply Hscale; right; split; reflexivity|exact Happly].
Defined.

Lemma resetMatrix_starts_afresh_witness :
  let s := mkState {[2%positive := [2; 0; 0; 0; 2; 0]%R]} {[1%positive := 2%positive]}
                   1%positive [2%positive] 3%R 4%R in
  exists s',
    pub.resetMatrix s = Return tt s'
    /\ matrixStack s' = []
    /\ current s' = Some [1; 0; 3; 0; 1; 4]%R
    /\ objects s !! currMatrix s' = None
    /\ contents s' 1%positive = Some [2; 0; 0; 0; 2; 0]%R.
Proof.
  intros s.
  destruct (resetMatrix_starts_afresh s) as (s' & Hrun & Hst & Hcur & Hnew & Hold).
  exists s'. split; [exact Hrun|]. split; [exact Hst|]. split; [exact Hcur|].
  split; [exact Hnew|]. apply Hold. reflexivity.
Defined.

(** ** Matrix2D on binary64: an array that is too short *)

(** X25. [apply] does not look at the length of an array it is given: with
    fewer than six numbers it still leaves six entries in the matrix, and
    the sixth of them is NaN, whatever the matrix held. *)
Theorem apply_of_short_array (M source : list float) :
  (length source < 6)%nat ->
  length (Matrix2D.apply M source) = 6%nat
  /\ (Matrix2D.apply M source).[5] = nan.
Proof.
  intros Hlen. split; [reflexivity|].
  rewrite (proj2 (apply_translation_entries M source)).
  assert (Hlast : source.[5] = nan).
  { unfold idx. apply nth_overflow. lia. }
  rewrite Hlast. cbn [mul add Number_float].
  rewrite mul_nan, add_nan, add_nan. reflexivity.
Qed.

Lemma apply_of_short_array_witness :
  length (Matrix2D.apply [1; 0; 0; 0; 1; 0]%float [1; 0; 5; 0; 1]%float) = 6%nat
  /\ (Matrix2D.apply [1; 0; 0; 0; 1; 0]%float [1; 0; 5; 0; 1]%float).[5] = nan.
Proof. apply apply_of_short_array. cbn. lia. Defined.

(** * The claims on binary64 *)

(** ** Where rounding shows *)

(** C1, as stated, fails on binary64. With M = [0.1, 0.2, 0.3, 0.4, 0.5,
    0.6], S = [0.7, 0.8, 0.9, 1.1, 1.2, 1.3] and p = [1, 1], the matrix that
    [M.apply(S)] leaves maps p to x = 1.2600000000000002, and M maps the
    image of p under S to x = 1.26. *)
Lemma apply_composition_rounds_on_binary64 :
  Matrix2D.mult
    (Matrix2D.apply [1 / 10; 2 / 10; 3 / 10; 4 / 10; 5 / 10; 6 / 10]%float
                    [7 / 10; 8 / 10; 9 / 10; 11 / 10; 12 / 10; 13 / 10]%float)
    (PArray [1; 1]%float) None
  <> Matrix2D.mult [1 / 10; 2 / 10; 3 / 10; 4 / 10; 5 / 10; 6 / 10]%float
       (Matrix2D.mult [7 / 10; 8 / 10; 9 / 10; 11 / 10; 12 / 10; 13 / 10]%float
          (PArray [1; 1]%float) None) None.
Proof.
  intros Heq.
  apply (f_equal (fun p => match p with
                           | PArray l => Prim2SF (nth 0 l nan)
                           | PVector _ _ _ => S754_nan
                           end)) in Heq.
  vm_compute in Heq. discriminate Heq.
Qed.



(** C7, as stated, fails, on binary64 as over the reals. Rotating the
    identity by 1 leaves -sin 1 = -0.8414709848078965 in its second entry;
    the identity composed with [cos, sin, 0, -sin, cos, 0] has sin 1
    there. *)
Lemma rotate_claimed_coefficients_differ_on_binary64 :
  Matrix2D.rotate 1%float Matrix2D.reset
  <> Matrix2D.apply Matrix2D.reset
       [cos 1%float; sin 1%float; 0%float; (- sin 1%float)%num; cos 1%float; 0%float].
Proof.
  intros Heq. apply (f_equal (fun l => Prim2SF (nth 1 l nan))) in Heq.
  vm_compute in Heq. discriminate Heq.
Qed.

(** ** Rotation on binary64 *)

Section Binary64.
Local Open Scope float_scope.

Lemma mul_comm_float (x y : float) : x * y = y * x.
Proof.
  apply Prim2SF_inj. rewrite !FloatAxioms.mul_spec. unfold SF64mul, SFmul.
  destruct (Prim2SF x) as [sx|sx| |sx mx ex], (Prim2SF y) as [sy|sy| |sy my ey];
    try reflexivity; try (rewrite (xorb_comm sx sy); reflexivity).
  rewrite (xorb_comm sx sy), (Pos.mul_comm mx my), (Z.add_comm ex ey). reflexivity.
Qed.

Lemma same_refl (x : float) : same x x = true.
Proof. unfold same, is_nan. destruct (x =? x); reflexivity. Qed.

Lemma same_zeros (x y : float) (sx sy : bool) :
  Prim2SF x = S754_zero sx -> Prim2SF y = S754_zero sy -> same x y = true.
Proof.
  intros Hx Hy. unfold same. rewrite FloatAxioms.eqb_spec, Hx, Hy. reflexivity.
Qed.

(** [x + y] for a [y] that is a zero. *)
Lemma add_zero_r (x y : float) (sy : bool) :
  Prim2SF y = S754_zero sy -> same x (x + y) = true.
Proof.
  intros Hy.
  destruct (Prim2SF x) as [sx|sx| |sx mx ex] eqn:Hx.
  - apply (same_zeros _ _ sx (if sx then if sy then true else false else false)); [exact Hx|].
    rewrite FloatAxioms.add_spec, Hx, Hy. destruct sx, sy; reflexivity.
  - replace (x + y) with x; [apply same_refl|].
    apply Prim2SF_inj. rewrite FloatAxioms.add_spec, Hx, Hy. reflexivity.
  - replace (x + y) with x; [apply same_refl|].
    apply Prim2SF_inj. rewrite FloatAxioms.add_spec, Hx, Hy. reflexivity.
  - replace (x + y) with x; [apply same_refl|].
    apply Prim2SF_inj. rewrite FloatAxioms.add_spec, Hx, Hy. reflexivity.
Qed.

Lemma add_zero_l (x : float) : same x (0 + x) = true.
Proof.
  destruct (Prim2SF x) as [sx|sx| |sx mx ex] eqn:Hx.
  - apply (same_zeros _ _ sx false); [exact Hx|].
    rewrite FloatAxioms.add_spec, Hx. destruct sx; reflexivity.
  - replace (0 + x) with x; [apply same_refl|].
    apply Prim2SF_inj. rewrite FloatAxioms.add_spec, Hx. reflexivity.
  - replace (0 + x) with x; [apply same_refl|].
    apply Prim2SF_inj. rewrite FloatAxioms.add_spec, Hx. reflexivity.
  - replace (0 + x) with x; [apply same_refl|].
    apply Prim2SF_inj. rewrite FloatAxioms.add_spec, Hx. reflexivity.
Qed.

Lemma finite_cases (x : float) :
  is_finite x = true ->
  (exists s, Prim2SF x = S754_zero s) \/ (exists s m e, Prim2SF x = S754_finite s m e).
Proof.
  unfold is_finite, is_nan, is_infinity. rewrite !FloatAxioms.eqb_spec, FloatAxioms.abs_spec.
  destruct (Prim2SF x) as [sx|sx| |sx mx ex] eqn:Hx; eauto.
  - cbn. rewrite orb_true_r. discriminate.
  - cbn. discriminate.
Qed.

Lemma finite_mul_zero (x : float) :
  is_finite x = true -> exists s, Prim2SF (x * 0) = S754_zero s.
Proof.
  intros [[s Hx]|(s & m & e & Hx)]%finite_cases; rewrite FloatAxioms.mul_spec, Hx; cbn; eauto.
Qed.

Lemma add_zeros (x y : float) (sx sy : bool) :
  Prim2SF x = S754_zero sx -> Prim2SF y = S754_zero sy ->
  exists s, Prim2SF (x + y) = S754_zero s.
Proof.
  intros Hx Hy. rewrite FloatAxioms.add_spec, Hx, Hy. destruct sx, sy; cbn; eauto.
Qed.

(** What [rotate] leaves and what [apply] leaves with
    [cos, -sin, 0, sin, cos, 0], entry by entry, whatever the two
    functions of [Math] return. *)
Lemma rotate_entries_binary64 (Math : Trig float) (angle m0 m1 m2 m3 m4 m5 : float) :
  is_finite m0 = true -> is_finite m1 = true ->
  is_finite m3 = true -> is_finite m4 = true ->
  Forall2 (fun x y => same x y = true)
    (Matrix2D.rotate angle [m0; m1; m2; m3; m4; m5])
    (Matrix2D.apply [m0; m1; m2; m3; m4; m5]
       [cos angle; (- sin angle)%num; 0; sin angle; cos angle; 0]).
Proof.
  intros H0 H1 H3 H4. rewrite rotate_six, apply_six.
  cbn [add mul neg lit Number_float float_lit].
  destruct (finite_mul_zero m0 H0) as [z0 Hz0], (finite_mul_zero m1 H1) as [z1 Hz1].
  destruct (finite_mul_zero m3 H3) as [z3 Hz3], (finite_mul_zero m4 H4) as [z4 Hz4].
  destruct (add_zeros _ _ _ _ Hz0 Hz1) as [z01 Hz01].
  destruct (add_zeros _ _ _ _ Hz3 Hz4) as [z34 Hz34].
  change PrimFloat.zero with 0.
  repeat constructor.
  - rewrite (mul_comm_float m0), (mul_comm_float m1). apply add_zero_l.
  - rewrite (mul_comm_float m0), (mul_comm_float m1). apply add_zero_l.
  - apply (add_zero_r _ _ z01 Hz01).
  - rewrite (mul_comm_float m3), (mul_comm_float m4). apply add_zero_l.
  - rewrite (mul_comm_float m3), (mul_comm_float m4). apply add_zero_l.
  - apply (add_zero_r _ _ z34 Hz34).
Qed.
End Binary64.

(** C7, amended. [M.rotate(angle)] composes M with the rotation matrix
    [cos, -sin, 0, sin, cos, 0]. On binary64, whatever [Math.cos] and
    [Math.sin] return: for every angle and every six-element M whose four
    linear entries are finite, each entry that [rotate] leaves is the same
    Number as the entry that [M.apply] leaves with that matrix, the two
    zeros taken as one. Over the reals the two are equal for every
    six-element M. *)
Theorem rotate_is_apply_rotation :
  (forall (Math : Trig float) (angle m0 m1 m2 m3 m4 m5 : float),
     is_finite m0 = true -> is_finite m1 = true ->
     is_finite m3 = true -> is_finite m4 = true ->
     Forall2 (fun x y => same x y = true)
       (@Matrix2D.rotate float _ Math angle [m0; m1; m2; m3; m4; m5])
       (Matrix2D.apply [m0; m1; m2; m3; m4; m5]
          [@cos float Math angle; (- @sin float Math angle)%num; 0%float;
           @sin float Math angle; @cos float Math angle; 0%float]))
  /\ (forall (angle : R) (M : list R),
        length M = 6%nat ->
        Matrix2D.rotate angle M =
        Matrix2D.apply M [cos angle; (- sin angle)%R; 0%R; sin angle; cos angle; 0%R]).
Proof.
  split.
  - intros Math angle m0 m1 m2 m3 m4 m5. apply rotate_entries_binary64.
  - exact rotate_is_apply_rotation_exact.
Qed.

Lemma rotate_is_apply_rotation_witness :
  Forall2 (fun x y => same x y = true)
    (Matrix2D.rotate 1%float [2; 0; 1; 0; 3; 1]%float)
    (Matrix2D.apply [2; 0; 1; 0; 3; 1]%float
       [cos 1%float; (- sin 1%float)%num; 0%float; sin 1%float; cos 1%float; 0%float])
  /\ Matrix2D.rotate 1%R [2; 0; 1; 0; 3; 1]%R =
     Matrix2D.apply [2; 0; 1; 0; 3; 1]%R
       [cos 1%R; (- sin 1)%R; 0%R; sin 1%R; cos 1%R; 0%R].
Proof.
  destruct rotate_is_apply_rotation as [Hfloat Hreal]. split.
  - apply (Hfloat Trig_float 1%float 2%float 0%float 1%float 0%float 3%float 1%float);
      reflexivity.
  - apply Hreal. reflexivity.
Defined.
